(** * run_xglue_ft.py: the multi-task sampler, the metric averaging, the
    argument checks of [main], the training loop, the feature cache and
    the evaluation results

    A shallow embedding of
    [understanding/examples/run_xglue_ft.py]:

    - [merge_dataset], the generator that interleaves the task datasets,
      twice: over exact real numbers, on datasets that iterate in one
      order (module [Sampler]), and in Python's own floating point, on
      datasets that [iter] may give in another order every time (module
      [Sampler64]);
    - [average_dic], the key-wise mean of result dictionaries (module
      [Averaging]);
    - the checks that [main] runs on its parsed arguments before any model
      is loaded (module [Main]);
    - [train]: its schedule and the loop over the batches of the generator
      with its counters, limits and logging (module [Train]);
    - [load_and_cache_examples]: the name of the cached file, and when the
      features are read from it, created and written (module [Cache]);
    - [evaluate]: the results of the languages and their averages (module
      [Evaluate]).

    Python floats are modelled in two ways.  Where a property is one of
    exact arithmetic they are real numbers: arithmetic is exact, and
    [x ** y] on a positive base is the real power [Rpower].  Where it is
    one of the code as it runs they are the binary64 numbers of
    [PrimFloat] (module [Binary64]), with the [pow] of the C library as a
    parameter.  Exceptions are values of the type [result].  The model,
    the tokenizer, the data files and the metrics are not modelled: where
    the code calls them, the embedding takes their results as given
    functions. *)

From Stdlib Require Import Reals Lra Lia ZArith Ascii Floats.
From stdpp Require Import base option list list_numbers gmap strings pretty.

(** ** Exceptions *)

Inductive value_error :=
  | OutputDirNotEmpty   (* "Output directory ({}) already exists and is not empty. ..." *)
  | TaskNotFound.       (* "Task not found: %s" *)

Inductive exn :=
  | ZeroDivisionError
  | IndexError
  | KeyError
  | StopIteration       (* when it leaves the body of a generator, the generator
                           is over: silently before Python 3.7, with a
                           RuntimeError from 3.7 on *)
  | AssertionError
  | NotADirectoryError
  | ValueError (why : value_error)
  | NegativeBase        (* [x ** y] with [x < 0]: outside the model, see [float_pow] *)
  | OverflowError.

Inductive result (A : Type) :=
  | Ok (a : A)
  | Raise (e : exn).
Arguments Ok {A} a.
Arguments Raise {A} e.

#[global] Instance result_ret : MRet result := λ A a, Ok a.
#[global] Instance result_bind : MBind result := λ A B f m,
  match m with
  | Ok a => f a
  | Raise e => Raise e
  end.

(** [assert c]. *)
Definition py_assert (c : bool) : result unit :=
  if c then Ok () else Raise AssertionError.

(** ** Python numbers over exact arithmetic *)

#[global] Instance Rle_decision : RelDecision Rle := Rle_dec.
#[global] Instance Rlt_decision : RelDecision Rlt := Rlt_dec.
#[global] Instance Req_decision : EqDecision R := Req_dec_T.

(** [x / y] on floats. *)
Definition truediv (x y : R) : result R :=
  if decide (y = 0%R) then Raise ZeroDivisionError else Ok (x / y)%R.

(** [x ** y] on floats.  [0.0 ** 0.0] is [1.0], [0.0 ** y] raises for a
    negative [y].  For a negative base Python's answer depends on whether
    [y] is integral (it is complex otherwise); [merge_dataset] only raises
    ratios of lengths to a power, which are never negative, so that case
    is left out of the model. *)
Definition float_pow (x y : R) : result R :=
  if decide (y = 0%R) then Ok 1%R
  else if decide (x = 0%R) then
    if decide (y < 0)%R then Raise ZeroDivisionError else Ok 0%R
  else if decide (x < 0)%R then Raise NegativeBase
  else Ok (Rpower x y).

(** [sum(l)]: left to right from [0]. *)
Definition sum_float (l : list R) : R := foldl Rplus 0%R l.

(** Python's [l[i]] and [l[i] = x] for a list: a negative index counts
    from the end. *)
Definition py_pos {A} (l : list A) (i : Z) : result nat :=
  let n := Z.of_nat (length l) in
  if bool_decide (0 ≤ i < n)%Z then Ok (Z.to_nat i)
  else if bool_decide (- n ≤ i < 0)%Z then Ok (Z.to_nat (n + i))
  else Raise IndexError.

Definition py_getitem {A} (l : list A) (i : Z) : result A :=
  j ← py_pos l i;
  match l !! j with
  | Some x => Ok x
  | None => Raise IndexError
  end.

Definition py_setitem {A} (l : list A) (i : Z) (x : A) : result (list A) :=
  j ← py_pos l i; Ok (<[j := x]> l).

(** ** merge_dataset, over exact arithmetic *)

Module Sampler.

(** The three comprehensions that compute [probs].  [dataset_size] holds
    lengths ([len(train_dataset)]), hence naturals. *)
Definition merge_probs (dataset_size : list nat) (task_ratio : R) : result (list R) :=
  probs ← mapM (λ item, truediv (INR item) (INR (sum_list dataset_size))) dataset_size;
  probs ← mapM (λ item, float_pow item task_ratio) probs;
  mapM (λ item, truediv item (sum_float probs)) probs.

(** The inner loop
    [while (r >= 0 and i < len(probs)): r -= probs[i]; i += 1].
    Every iteration increments [i] and the loop stops at [len(probs)], so
    [len(probs)] iterations are always enough ([scan_walk] below). *)
Fixpoint scan (fuel : nat) (probs : list R) (r : R) (i : nat) : nat :=
  match fuel with
  | O => i
  | S fuel =>
      if bool_decide (0 <= r)%R && bool_decide (i < length probs) then
        match probs !! i with
        | Some p => scan fuel probs (r - p)%R (S i)
        | None => i
        end
      else i
  end.

(** The same loop by recursion on the entries [probs[i:]] that it has not
    visited yet. *)
Fixpoint walk (rest : list R) (r : R) (i : nat) : nat :=
  match rest with
  | [] => i
  | p :: rest => if bool_decide (0 <= r)%R then walk rest (r - p)%R (S i) else i
  end.

(** [i = 0; while ...; i -= 1] *)
Definition select (probs : list R) (r : R) : Z :=
  Z.of_nat (scan (length probs) probs r 0) - 1.

Section Generator.
Context {A : Type}.

(** An iterator over a dataset is the list of the items it has not
    produced yet; [iter(d)] is [d] itself: the dataset is one that
    iterates in the same order every time, as a list does.  [Sampler64]
    has the others. *)
Definition iter (d : list A) : list A := d.

(** [next(it)] *)
Definition next (it : list A) : result (A * list A) :=
  match it with
  | [] => Raise StopIteration
  | item :: it' => Ok (item, it')
  end.

(** One round of the [while True] loop: the index drawn, the item, and
    the iterators afterwards.  [r] is the value of [random.random()].
    [next] advances the iterator object that [iterators[i]] refers to, so
    the rest it leaves is stored back at [i]. *)
Definition merge_next (dataset_list : list (list A)) (probs : list R)
    (iterators : list (list A)) (r : R) : result (Z * A * list (list A)) :=
  let i := select probs r in
  it ← py_getitem iterators i;
  match next it with
  | Ok (item, it') =>
      iterators ← py_setitem iterators i it';
      Ok (i, item, iterators)
  | Raise StopIteration =>
      (* except StopIteration *)
      d ← py_getitem dataset_list i;
      iterators ← py_setitem iterators i (iter d);
      it ← py_getitem iterators i;
      '(item, it') ← next it;
      iterators ← py_setitem iterators i it';
      Ok (i, item, iterators)
  | Raise e => Raise e
  end.

(** The first [n] rounds from the state [iterators]; [random t] is the
    [t]-th value of [random.random()].  The pairs yielded, and the
    exception that ended the generator if one did. *)
Fixpoint generate (dataset_list : list (list A)) (probs : list R)
    (random : nat → R) (n t : nat) (iterators : list (list A))
    : list (Z * A) * option exn :=
  match n with
  | O => ([], None)
  | S n =>
      match merge_next dataset_list probs iterators (random t) with
      | Raise e => ([], Some e)
      | Ok (i, item, iterators) =>
          let '(out, e) := generate dataset_list probs random n (S t) iterators in
          ((i, item) :: out, e)
      end
  end.

(** What a consumer that asks for [n] pairs gets. *)
Definition merge_dataset (dataset_list : list (list A)) (dataset_size : list nat)
    (task_ratio : R) (random : nat → R) (n : nat) : list (Z * A) * option exn :=
  match n with
  | O => ([], None)
  | S _ =>
      let iterators := iter <$> dataset_list in
      match merge_probs dataset_size task_ratio with
      | Raise e => ([], Some e)
      | Ok probs => generate dataset_list probs random n 0 iterators
      end
  end.

End Generator.

(** *** The contract, in the words of the specification *)

(** [s_i / Σs] *)
Definition proportion (dataset_size : list nat) (s : nat) : R :=
  (INR s / INR (sum_list dataset_size))%R.

(** [p_i = (s_i / Σs)^r] *)
Definition tempered (dataset_size : list nat) (r : R) : list R :=
  (λ s, Rpower (proportion dataset_size s) r) <$> dataset_size.

(** "renormalize to sum to 1" *)
Definition renormalize (v : list R) : list R :=
  (λ x, x / sum_float v)%R <$> v.

(** [p_0 + ... + p_(j-1)], the left end of the [j]-th cumulative
    interval. *)
Definition cumulative (probs : list R) (j : nat) : R :=
  sum_float (take j probs).

(** The items yielded for task [i], in the order they were yielded. *)
Definition task_items {A} (i : Z) (out : list (Z * A)) : list A :=
  (filter (λ p, p.1 = i) out).*2.

(** The invariant of the generator: every iterator is a rest of its
    dataset. *)
Definition suffixes {A} (dataset_list iterators : list (list A)) : Prop :=
  Forall2 (λ d it, ∃ m, m ≤ length d ∧ it = drop m d) dataset_list iterators.

End Sampler.

(** ** Python floats as they are: binary64 *)

Module Binary64.

(** [float(n)] for an int [n]: the nearest float, ties to even; an int
    beyond the largest float raises. *)
Definition float_of_int (n : Z) : result float :=
  let x := SF2Prim (binary_normalize prec emax n 0 false) in
  if PrimFloat.is_infinity x then Raise OverflowError else Ok x.

(** [x / y] on floats. *)
Definition truediv (x y : float) : result float :=
  if PrimFloat.eqb y 0 then Raise ZeroDivisionError else Ok (PrimFloat.div x y).

(** [x / n] for a float [x] and an int [n]. *)
Definition truediv_int (x : float) (n : Z) : result float :=
  y ← float_of_int n; truediv x y.

(** [sum(l)] on floats: left to right from [0]. *)
Definition sum_float (l : list float) : float := foldl PrimFloat.add 0%float l.

(** Whether [y] is an odd integer. *)
Definition is_odd_integer (y : float) : bool :=
  match Prim2SF y with
  | S754_finite _ m e =>
      if (0 <? e)%Z then false
      else bool_decide (Z.pos m mod 2 ^ (- e) = 0)%Z
           && Z.odd (Z.pos m / 2 ^ (- e))
  | _ => false
  end.

Section Pow.

(** The [pow] of the C library.  [float_pow] calls it on a finite base
    that is positive and not 1, with a finite exponent that is not 0. *)
Variable pow : float → float → float.

(** [x ** y] on floats.  The special cases are settled before [pow] is
    called; a result of [pow] that is infinite is an overflow, one that
    has underflowed to [0.0] is returned.  For a negative base Python's
    answer depends on whether [y] is integral (it is complex otherwise);
    [merge_dataset] only raises ratios of lengths to a power, which are
    never negative, so that case is left out of the model. *)
Definition float_pow (x y : float) : result float :=
  if PrimFloat.eqb y 0 then Ok 1%float
  else if PrimFloat.is_nan x then Ok x
  else if PrimFloat.is_nan y then Ok (if PrimFloat.eqb x 1 then 1%float else y)
  else if PrimFloat.is_infinity y then
    if PrimFloat.eqb (PrimFloat.abs x) 1 then Ok 1%float
    else if Bool.eqb (PrimFloat.ltb 0 y) (PrimFloat.ltb 1 (PrimFloat.abs x))
         then Ok (PrimFloat.abs y)
    else Ok 0%float
  else if PrimFloat.ltb x 0 then Raise NegativeBase
  else if PrimFloat.is_infinity x then
    if PrimFloat.ltb 0 y then Ok x else Ok 0%float
  else if PrimFloat.eqb x 0 then
    if PrimFloat.ltb y 0 then Raise ZeroDivisionError
    else Ok (if is_odd_integer y then x else 0%float)
  else if PrimFloat.eqb x 1 then Ok 1%float
  else
    let z := pow x y in
    if PrimFloat.is_infinity z then Raise OverflowError else Ok z.

End Pow.

(** The real number that a finite float stands for. *)
Definition to_R (x : float) : R :=
  match Prim2SF x with
  | S754_finite s m e =>
      ((if s then -1 else 1) * IZR (Z.pos m) * powerRZ 2 e)%R
  | _ => 0%R
  end.

End Binary64.

(** ** merge_dataset, in binary64 and on datasets that are iterated anew *)

Module Sampler64.

Section Probabilities.
Variable pow : float → float → float.

(** The three comprehensions that compute [probs]. *)
Definition merge_probs (dataset_size : list nat) (task_ratio : float)
    : result (list float) :=
  probs ← mapM (λ item,
                  x ← Binary64.float_of_int (Z.of_nat item);
                  Binary64.truediv_int x (Z.of_nat (sum_list dataset_size)))
            dataset_size;
  probs ← mapM (λ item, Binary64.float_pow pow item task_ratio) probs;
  mapM (λ item, Binary64.truediv item (Binary64.sum_float probs)) probs.

End Probabilities.

(** The inner loop
    [while (r >= 0 and i < len(probs)): r -= probs[i]; i += 1];
    [len(probs)] iterations are always enough. *)
Fixpoint scan (fuel : nat) (probs : list float) (r : float) (i : nat) : nat :=
  match fuel with
  | O => i
  | S fuel =>
      if PrimFloat.leb 0 r && (i <? length probs)%nat then
        match probs !! i with
        | Some p => scan fuel probs (PrimFloat.sub r p) (S i)
        | None => i
        end
      else i
  end.

(** [i = 0; while ...; i -= 1] *)
Definition select (probs : list float) (r : float) : Z :=
  Z.of_nat (scan (length probs) probs r 0) - 1.

Section Generator.
Context {A : Type}.

(** A dataset is an iterable, and [iter] may give its items in another
    order every time it is called: a [DataLoader] with a [RandomSampler],
    which is what [train] passes, draws a new permutation.  A dataset is
    the sequence of the orders that the successive calls of [iter] on it
    give; a Python list is a constant sequence.  The datasets of a list
    are taken to be distinct objects. *)
Definition dataset : Type := nat → list A.

(** [iter(d)]: the iterator, and the dataset after the call. *)
Definition iter (d : dataset) : list A * dataset := (d 0, λ k, d (S k)).

(** [next(it)] *)
Definition next (it : list A) : result (A * list A) :=
  match it with
  | [] => Raise StopIteration
  | item :: it' => Ok (item, it')
  end.

(** One round of the [while True] loop: the index drawn, the item, and
    the datasets and the iterators afterwards.  [r] is the value of
    [random.random()].  [next] advances the iterator object that
    [iterators[i]] refers to, so the rest it leaves is stored back at
    [i]; [iter(dataset_list[i])] leaves the dataset at its next
    iteration. *)
Definition merge_next (dataset_list : list dataset) (probs : list float)
    (iterators : list (list A)) (r : float)
    : result (Z * A * list dataset * list (list A)) :=
  let i := select probs r in
  it ← py_getitem iterators i;
  match next it with
  | Ok (item, it') =>
      iterators ← py_setitem iterators i it';
      Ok (i, item, dataset_list, iterators)
  | Raise StopIteration =>
      (* except StopIteration *)
      d ← py_getitem dataset_list i;
      dataset_list ← py_setitem dataset_list i (iter d).2;
      iterators ← py_setitem iterators i (iter d).1;
      it ← py_getitem iterators i;
      '(item, it') ← next it;
      iterators ← py_setitem iterators i it';
      Ok (i, item, dataset_list, iterators)
  | Raise e => Raise e
  end.

(** The first [n] rounds from a state of the datasets and the iterators;
    [random t] is the [t]-th value of [random.random()]. *)
Fixpoint generate (dataset_list : list dataset) (probs : list float)
    (random : nat → float) (n t : nat) (iterators : list (list A))
    : list (Z * A) * option exn :=
  match n with
  | O => ([], None)
  | S n =>
      match merge_next dataset_list probs iterators (random t) with
      | Raise e => ([], Some e)
      | Ok (i, item, dataset_list, iterators) =>
          let '(out, e) :=
            generate dataset_list probs random n (S t) iterators in
          ((i, item) :: out, e)
      end
  end.

End Generator.

Section Merge.
Context {A : Type}.
Variable pow : float → float → float.

(** What a consumer that asks for [n] pairs gets. *)
Definition merge_dataset (dataset_list : list (@dataset A))
    (dataset_size : list nat) (task_ratio : float) (random : nat → float)
    (n : nat) : list (Z * A) * option exn :=
  match n with
  | O => ([], None)
  | S _ =>
      let iterators := (λ d, (iter d).1) <$> dataset_list in
      let dataset_list := (λ d, (iter d).2) <$> dataset_list in
      match merge_probs pow dataset_size task_ratio with
      | Raise e => ([], Some e)
      | Ok probs => generate dataset_list probs random n 0 iterators
      end
  end.

End Merge.

(** *** The contract *)

(** [p_0 + ... + p_(j-1)] as a real number, the left end of the [j]-th
    cumulative interval. *)
Definition cumulative (probs : list float) (j : nat) : R :=
  sum_float (Binary64.to_R <$> take j probs).

(** The items of the first [k] iterations of a dataset, one iteration
    after the other. *)
Definition iterations {A} (d : @dataset A) (k : nat) : list A :=
  concat (d <$> seq 0 k).

End Sampler64.

(** A [for] loop whose body may raise: [body] maps the state before an
    iteration to the state after it. *)
Fixpoint for_each {S X : Type} (body : S → X → result S) (l : list X) (s : S)
    : result S :=
  match l with
  | [] => Ok s
  | x :: l => s ← body s x; for_each body l s
  end.

(** ** average_dic *)

Module Averaging.

(** A result dictionary maps metric names to numbers.  Dictionaries are
    objects: the heap lists them by address, [dic_list] is a list of
    addresses, and every assignment [d[key] = ...] is a write to the heap
    at the address of [d]. *)
Abbreviation dict := (gmap string R).
Abbreviation heap := (list (gmap string R)).

(** [{}] *)
Definition new_dict (h : heap) : nat * heap := (length h, h ++ [∅]).

(** A statement that rebinds entries of the dictionary at address [a]. *)
Definition update_at (a : nat) (f : dict → result dict) (h : heap) : result heap :=
  d ← f (h !!! a); Ok (<[a := d]> h).

(** [d[key] = value] *)
Definition setitem (key : string) (value : R) (d : dict) : result dict :=
  Ok (<[key := value]> d).

(** [d[key] += value] *)
Definition iadd (key : string) (value : R) (d : dict) : result dict :=
  match d !! key with
  | Some old => Ok (<[key := (old + value)%R]> d)
  | None => Raise KeyError
  end.

(** [d[key] /= n] *)
Definition idiv (key : string) (n : nat) (d : dict) : result dict :=
  match d !! key with
  | Some old => q ← truediv old (INR n); Ok (<[key := q]> d)
  | None => Raise KeyError
  end.

(** The body of [for dic in dic_list]; an item [kv] of [dic.items()] is the
    pair of [key] and [value]. *)
Definition accumulate (dic_sum : nat) (h : heap) (dic : nat) : result heap :=
  if bool_decide (size (h !!! dic_sum) = 0) then
    for_each (λ h kv, update_at dic_sum (setitem kv.1 kv.2) h)
      (map_to_list (h !!! dic)) h
  else
    _ ← py_assert (bool_decide (dom (h !!! dic_sum) = dom (h !!! dic)));
    for_each (λ h kv, update_at dic_sum (iadd kv.1 kv.2) h)
      (map_to_list (h !!! dic)) h.

Definition average_dic (dic_list : list nat) (h : heap) : result (nat * heap) :=
  if bool_decide (length dic_list = 0) then Ok (new_dict h)
  else
    let '(dic_sum, h) := new_dict h in
    h ← for_each (accumulate dic_sum) dic_list h;
    h ← for_each (λ h key, update_at dic_sum (idiv key (length dic_list)) h)
          (map_to_list (h !!! dic_sum)).*1 h;
    Ok (dic_sum, h).

(** *** The contract *)

(** The key-wise sum of two dictionaries. *)
Definition dict_add (d1 d2 : dict) : dict :=
  union_with (λ x y, Some (x + y)%R) d1 d2.




End Averaging.

(** ** main, up to the task lookup *)

Module Main.

(** What [os.path.exists] and [os.listdir] see at a path. *)
Inductive path_state :=
  | Absent
  | Directory (entries : list string)
  | NotDirectory.

(** The parsed arguments that the checks read. *)
Record Args := {
  output_dir : string;
  do_train : bool;
  overwrite_output_dir : bool;
  server_ip : string;
  server_port : string;
  gpu_id : string;
  local_rank : Z;
  no_cuda : bool;
  per_gpu_train_batch_size : Z;
  gradient_accumulation_steps : Z;
  logging_steps : Z;
  logging_steps_in_sample : Z;
  language : string;
  train_language : option string;
  task_name : string;
  seed : Z;
}.

(** [args.train_language = v] and [args.logging_steps = v] *)
Definition set_train_language (v : string) (args : Args) : Args :=
  {| output_dir := output_dir args; do_train := do_train args;
     overwrite_output_dir := overwrite_output_dir args;
     server_ip := server_ip args; server_port := server_port args;
     gpu_id := gpu_id args; local_rank := local_rank args;
     no_cuda := no_cuda args;
     per_gpu_train_batch_size := per_gpu_train_batch_size args;
     gradient_accumulation_steps := gradient_accumulation_steps args;
     logging_steps := logging_steps args;
     logging_steps_in_sample := logging_steps_in_sample args;
     language := language args; train_language := Some v;
     task_name := task_name args; seed := seed args |}.

Definition set_logging_steps (v : Z) (args : Args) : Args :=
  {| output_dir := output_dir args; do_train := do_train args;
     overwrite_output_dir := overwrite_output_dir args;
     server_ip := server_ip args; server_port := server_port args;
     gpu_id := gpu_id args; local_rank := local_rank args;
     no_cuda := no_cuda args;
     per_gpu_train_batch_size := per_gpu_train_batch_size args;
     gradient_accumulation_steps := gradient_accumulation_steps args;
     logging_steps := v;
     logging_steps_in_sample := logging_steps_in_sample args;
     language := language args; train_language := train_language args;
     task_name := task_name args; seed := seed args |}.

(** The values that [parse_args] gives to the flags when the command line
    sets only the required ones. *)
Definition defaults (output_dir language task_name : string) : Args :=
  {| output_dir := output_dir; do_train := false;
     overwrite_output_dir := false;
     server_ip := EmptyString; server_port := EmptyString;
     gpu_id := EmptyString; local_rank := -1;
     no_cuda := false;
     per_gpu_train_batch_size := 8;
     gradient_accumulation_steps := 1;
     logging_steps := 50;
     logging_steps_in_sample := -1;
     language := language; train_language := None;
     task_name := task_name; seed := 42 |}.

(** The surroundings: the file system, [torch.cuda.device_count()] and the
    keys of [processors], which [transformers] provides. *)
Record Env := {
  path : string → path_state;
  device_count : Z;
  processors : list string;
}.

(** What [main] does to its surroundings, in order. *)
Inductive event :=
  | AttachDebugger
  | SetVisibleDevices (ids : string)
  | InitProcessGroup
  | ConfigureLogging
  | SetSeed (s : Z).

(** A computation that logs events and may raise. *)
Definition run (X : Type) : Type := list event * result X.

Definition lift {X} (r : result X) : run X := ([], r).
Definition emit (e : event) : run unit := ([e], Ok ()).
Definition when (c : bool) (m : run unit) : run unit :=
  if c then m else ([], Ok ()).

#[global] Instance run_ret : MRet run := λ X x, ([], Ok x).
#[global] Instance run_bind : MBind run := λ X Y f m,
  match m.2 with
  | Ok x => (m.1 ++ (f x).1, (f x).2)
  | Raise e => (m.1, Raise e)
  end.

(** A string in a condition: true unless empty. *)
Definition truthy (s : string) : bool := negb (bool_decide (s = EmptyString)).

(** [x // y] on ints. *)
Definition floordiv (x y : Z) : result Z :=
  if bool_decide (y = 0%Z) then Raise ZeroDivisionError else Ok (x / y)%Z.

(** [if (os.path.exists(args.output_dir) and os.listdir(args.output_dir)
    and args.do_train and not args.overwrite_output_dir): raise ValueError],
    the operands evaluated left to right. *)
Definition output_dir_guard (env : Env) (args : Args) : result unit :=
  match path env (output_dir args) with
  | Absent => Ok ()
  | NotDirectory => Raise NotADirectoryError
  | Directory entries =>
      if negb (bool_decide (entries = [])) then
        if do_train args then
          if negb (overwrite_output_dir args) then
            Raise (ValueError OutputDirNotEmpty)
          else Ok ()
        else Ok ()
      else Ok ()
  end.

(** "Setup CUDA, GPU & distributed training": the value of [args.n_gpu]. *)
Definition setup_devices (env : Env) (args : Args) : run Z :=
  _ ← emit (SetVisibleDevices (gpu_id args));
  if bool_decide (local_rank args = (-1)%Z) || no_cuda args then
    mret (device_count env)
  else
    _ ← emit InitProcessGroup; mret 1%Z.

(** [if args.train_language is None or args.train_language == "all"] *)
Definition preprocess_language (args : Args) : Args :=
  match train_language args with
  | None => set_train_language (language args) args
  | Some l =>
      if bool_decide (l = "all"%string) then set_train_language (language args) args
      else args
  end.

(** [assert not (args.logging_steps != -1 and
    args.logging_steps_in_sample != -1)] *)
Definition logging_flags_assert (args : Args) : result unit :=
  py_assert (negb (negb (bool_decide (logging_steps args = (-1)%Z))
                   && negb (bool_decide (logging_steps_in_sample args = (-1)%Z)))).

(** [if args.logging_steps == -1 and args.logging_steps_in_sample != -1] *)
Definition logging_steps_from_samples (n_gpu : Z) (args : Args) : result Args :=
  if bool_decide (logging_steps args = (-1)%Z)
     && negb (bool_decide (logging_steps_in_sample args = (-1)%Z)) then
    let total_batch_size :=
      (n_gpu * per_gpu_train_batch_size args * gradient_accumulation_steps args)%Z in
    q ← floordiv (logging_steps_in_sample args) total_batch_size;
    Ok (set_logging_steps q args)
  else Ok args.

(** [if args.task_name not in processors: raise ValueError] *)
Definition task_lookup (env : Env) (args : Args) : result unit :=
  if bool_decide (task_name args ∈ processors env) then Ok ()
  else Raise (ValueError TaskNotFound).

(** [main], from the guard on the output directory to the task lookup. *)
Definition main (env : Env) (args : Args) : run Args :=
  _ ← lift (output_dir_guard env args);
  _ ← when (truthy (server_ip args) && truthy (server_port args))
        (emit AttachDebugger);
  n_gpu ← setup_devices env args;
  _ ← emit ConfigureLogging;
  let args := preprocess_language args in
  _ ← lift (logging_flags_assert args);
  args ← lift (logging_steps_from_samples n_gpu args);
  _ ← emit (SetSeed (seed args));
  _ ← lift (task_lookup env args);
  mret args.

(** The part of [main] that follows the assertion. *)
Definition after_assert (env : Env) (n_gpu : Z) (args : Args) : run Args :=
  args ← lift (logging_steps_from_samples n_gpu args);
  _ ← emit (SetSeed (seed args));
  _ ← lift (task_lookup env args);
  mret args.

(** *** The conditions, in the words of the specification *)

(** "The output directory exists, is non-empty, do_train is set, and the
    overwrite_output_dir flag is not set." *)
Definition output_dir_in_use (env : Env) (args : Args) : Prop :=
  ∃ entries,
    path env (output_dir args) = Directory entries
    ∧ entries ≠ []
    ∧ do_train args = true
    ∧ overwrite_output_dir args = false.

(** "Both logging_steps and logging_steps_in_sample are different from
    -1." *)
Definition both_logging_flags_set (args : Args) : Prop :=
  logging_steps args ≠ (-1)%Z ∧ logging_steps_in_sample args ≠ (-1)%Z.

End Main.

(** ** train: the schedule and the loop over the batches *)

Module Train.

(** The arguments that [train] reads beside those of [Main.Args]. *)
Record Args := {
  main_args : Main.Args;
  max_steps : Z;
  break_steps : Z;
  num_train_epochs : R;
  logging_each_epoch : bool;
  task_ratio : R;
}.

(** What [train] does to the optimizer, the scheduler and the writers; the
    model and its parameters are not modelled. *)
Inductive event :=
  | Schedule (t_total : R)
  | OptimizerStep
  | Logging (global_step : Z) (loss : R)
  | SaveCheckpoint (global_step : Z).

(** The local variables of the loop.  [steps_trained_in_current_epoch] is
    not among them: it is 0, its other assignment being under
    [if ... and False], so that [if steps_trained_in_current_epoch > 0]
    never holds. *)
Record state := {
  step : Z;
  global_step : Z;
  tr_loss : R;
  logging_loss : R;
  events : list event;
}.

(** [x % y] on ints. *)
Definition py_mod (x y : Z) : result Z :=
  if bool_decide (y = 0%Z) then Raise ZeroDivisionError else Ok (x mod y)%Z.

(** [args.local_rank in [-1, 0]] *)
Definition first_process (args : Args) : bool :=
  bool_decide (Main.local_rank (main_args args) ∈ [(-1)%Z; 0%Z]).

(** [t_total] and [args.num_train_epochs]. *)
Definition schedule (args : Args) (len_train_dataloader : Z) : result (R * R) :=
  if bool_decide (0 < max_steps args)%Z then
    q ← Main.floordiv len_train_dataloader
          (Main.gradient_accumulation_steps (main_args args));
    e ← Main.floordiv (max_steps args) q;
    Ok (IZR (max_steps args), IZR (e + 1))
  else
    q ← Main.floordiv len_train_dataloader
          (Main.gradient_accumulation_steps (main_args args));
    Ok ((IZR q * num_train_epochs args)%R, num_train_epochs args).

Definition init (t_total : R) : state :=
  {| step := 0; global_step := 0; tr_loss := 0; logging_loss := 0;
     events := [Schedule t_total] |}.

(** [tr_loss += loss.item()] *)
Definition add_loss (loss : R) (st : state) : state :=
  {| step := step st; global_step := global_step st;
     tr_loss := tr_loss st + loss; logging_loss := logging_loss st;
     events := events st |}.

(** [optimizer.step(); scheduler.step(); model.zero_grad();
    global_step += 1] *)
Definition update (st : state) : state :=
  {| step := step st; global_step := global_step st + 1;
     tr_loss := tr_loss st; logging_loss := logging_loss st;
     events := events st ++ [OptimizerStep] |}.

(** [logging()], without the evaluation that [evaluate_during_training]
    asks for: the scalar [loss] that it writes at [global_step]. *)
Definition logging (args : Args) (st : state) : result state :=
  q ← truediv (tr_loss st - logging_loss st)
        (IZR (Main.logging_steps (main_args args)));
  Ok {| step := step st; global_step := global_step st;
        tr_loss := tr_loss st; logging_loss := logging_loss st;
        events := events st ++ [Logging (global_step st) q] |}.

(** [logging_loss = tr_loss] *)
Definition set_logging_loss (st : state) : state :=
  {| step := step st; global_step := global_step st;
     tr_loss := tr_loss st; logging_loss := tr_loss st;
     events := events st |}.

(** [step += 1] *)
Definition next_step (st : state) : state :=
  {| step := step st + 1; global_step := global_step st;
     tr_loss := tr_loss st; logging_loss := logging_loss st;
     events := events st |}.

Section Loop.
Context {A : Type}.
Variable args : Args.

(** [outputs[0]], averaged over the devices, as a number: the loss of the
    model, as it is when the [t]-th batch arrives, on this batch. *)
Variable loss : nat → Z → A → R.

(** The body of [for _, batch in enumerate(merge_dataset(...))] on the
    [t]-th pair; the flag tells whether it ends in [break]. *)
Definition body (t : nat) (st : state) (batch : Z * A) : result (state * bool) :=
  let task_idx := batch.1 in
  let batch := batch.2 in
  let loss := loss t task_idx batch in
  let loss :=
    if bool_decide (1 < Main.gradient_accumulation_steps (main_args args))%Z
    then (loss / IZR (Main.gradient_accumulation_steps (main_args args)))%R
    else loss in
  let st := add_loss loss st in
  r ← py_mod (step st + 1) (Main.gradient_accumulation_steps (main_args args));
  st ← (if bool_decide (r = 0%Z) then
          let st := update st in
          if first_process args
             && bool_decide (0 < Main.logging_steps (main_args args))%Z then
            r ← py_mod (global_step st) (Main.logging_steps (main_args args));
            if bool_decide (r = 0%Z) then
              st ← logging args st; Ok (set_logging_loss st)
            else Ok st
          else Ok st
        else Ok st);
  let st := next_step st in
  if bool_decide (0 < max_steps args)%Z
     && bool_decide (max_steps args < global_step st)%Z then Ok (st, true)
  else if bool_decide (0 < break_steps args)%Z
          && bool_decide (break_steps args < global_step st)%Z then Ok (st, true)
  else Ok (st, false).

(** The loop on the pairs that the generator yields, from the [t]-th on. *)
Fixpoint loop (t : nat) (batches : list (Z * A)) (st : state)
    : result (state * bool) :=
  match batches with
  | [] => Ok (st, false)
  | batch :: batches =>
      '(st, stop) ← body t st batch;
      if stop : bool then Ok (st, true) else loop (S t) batches st
  end.

End Loop.

(** *** The contract *)

(** One of the two limits is positive and below [global_step]. *)
Definition past_limit (args : Args) (global_step : Z) : Prop :=
  (0 < max_steps args ∧ max_steps args < global_step)%Z
  ∨ (0 < break_steps args ∧ break_steps args < global_step)%Z.

#[global] Instance past_limit_decision (args : Args) (global_step : Z) :
  Decision (past_limit args global_step) :=
  ltac:(unfold past_limit; apply _).

(** The number of updates among the events. *)
Definition updates (evs : list event) : nat :=
  length (omap (λ e, match e with OptimizerStep => Some () | _ => None end)
            evs).

(** The global steps at which [logging()] has written, in order. *)
Definition logged (evs : list event) : list Z :=
  omap (λ e, match e with Logging g _ => Some g | _ => None end) evs.

(** The losses of the batches, the first of which is the [t]-th. *)
Definition losses {A} (loss : nat → Z → A → R) (t : nat)
    (batches : list (Z * A)) : list R :=
  imap (λ j batch, loss (t + j) batch.1 batch.2) batches.

End Train.

(** ** load_and_cache_examples *)

Module Cache.

(** The arguments that [load_and_cache_examples] reads beside those of
    [Main.Args]. *)
Record Args := {
  main_args : Main.Args;
  model_name_or_path : string;
  data_cache_name : option string;
  data_dir : string;
  max_seq_length : Z;
  overwrite_cache : bool;
}.

(** [raise ValueError("No other `output_mode` for XNLI.")] is not among
    the errors of [exn]. *)
Inductive error :=
  | NoOtherOutputMode
  | Python (e : exn).

(** [s.split(sep)] for a separator of one character. *)
Fixpoint py_split (sep : Ascii.ascii) (s : string) : list string :=
  match s with
  | EmptyString => [EmptyString]
  | String c s =>
      if bool_decide (c = sep) then EmptyString :: py_split sep s
      else
        match py_split sep s with
        | w :: ws => String c w :: ws
        | [] => [String c EmptyString]
        end
  end.

(** [s.endswith(c)] for one character. *)
Fixpoint endswith (c : Ascii.ascii) (s : string) : bool :=
  match s with
  | EmptyString => false
  | String a EmptyString => bool_decide (a = c)
  | String _ s => endswith c s
  end.

(** [os.path.join(a, b)] of [posixpath]. *)
Definition path_join (a b : string) : string :=
  if String.prefix "/"%string b then b
  else if bool_decide (a = EmptyString) || endswith "/"%char a then a +:+ b
  else a +:+ "/"%string +:+ b.

(** [l.pop()], the value. *)
Definition pop {X} (l : list X) : result X :=
  match last l with
  | Some x => Ok x
  | None => Raise IndexError
  end.

(** [d[key]] *)
Definition getitem {V} (d : gmap string V) (key : string) : result V :=
  match d !! key with
  | Some v => Ok v
  | None => Raise KeyError
  end.

(** [list(filter(None, args.model_name_or_path.split("/"))).pop()] *)
Definition model_cache_name (model_name_or_path : string) : result string :=
  pop (filter (λ w, w ≠ EmptyString) (py_split "/"%char model_name_or_path)).

(** [cached_features_file] *)
Definition cached_features_file (args : Args) (task language split : string)
    : result string :=
  name ← model_cache_name (model_name_or_path args);
  let name := default name (data_cache_name args) in
  Ok (path_join (data_dir args)
        ("cached_" +:+ split +:+ "_" +:+ name +:+ "_"
         +:+ pretty (max_seq_length args) +:+ "_" +:+ task +:+ "_"
         +:+ language)%string).

Definition task2folder : gmap string string :=
  list_to_map
    [("ads", "QADSM"); ("rel", "WPR"); ("xnli", "XNLI"); ("qam", "QAM");
     ("news", "NC"); ("pawsx", "PAWSX")]%string.

(** [args.local_rank in [-1, 0]] *)
Definition first_process (args : Args) : bool :=
  bool_decide (Main.local_rank (main_args args) ∈ [(-1)%Z; 0%Z]).

Section Load.

(** The features of a dataset: what [torch.save] writes, [torch.load]
    reads and the tensors of the result are built from. *)
Context {F : Type}.

(** The keys of [processors], and [output_modes]. *)
Variable processors : list string.
Variable output_modes : gmap string string.

(** [convert_examples_to_features] on the examples that the processor of
    the task, made for the language, reads for the split from a folder,
    for a maximal length and an output mode. *)
Variable create_features :
  string → string → string → string → Z → string → result F.

(** The function up to the conversion to tensors, on the cached files
    [fs]: the files afterwards, the features and the output mode.  The two
    calls of [torch.distributed.barrier()] are not there: their
    conditions compare the function [evaluate] with a string and negate
    it, and are false. *)
Definition load_features (args : Args) (task language split : string)
    (fs : gmap string F) : result (gmap string F * F * string) :=
  _ ← py_assert (bool_decide (split ∈ ["train"; "valid"; "test"]%string));
  _ ← (if bool_decide (task ∈ processors) then Ok () else Raise KeyError);
  output_mode ← getitem output_modes task;
  file ← cached_features_file args task language split;
  match fs !! file, overwrite_cache args with
  | Some features, false => Ok (fs, features, output_mode)
  | _, _ =>
      folder ← getitem task2folder task;
      features ← create_features task language split
                   (data_dir args +:+ "/"%string +:+ folder)
                   (max_seq_length args) output_mode;
      Ok (if first_process args then <[file := features]> fs else fs,
          features, output_mode)
  end.

(** [load_and_cache_examples]: the cached files afterwards, and the
    features that the dataset and the guids are made of, or the error. *)
Definition load_and_cache_examples (args : Args)
    (task language split : string) (fs : gmap string F)
    : gmap string F * (error + F) :=
  match load_features args task language split fs with
  | Raise e => (fs, inl (Python e))
  | Ok (fs, features, output_mode) =>
      if bool_decide (output_mode = "classification"%string)
      then (fs, inr features)
      else (fs, inl NoOtherOutputMode)
  end.

End Load.

End Cache.

(** ** evaluate: the results of the languages and their averages *)

Module Evaluate.





Section Evaluate.

(** The evaluation of one dataset, from [load_and_cache_examples] to
    [compute_metrics]: the metrics of the model on a split of a
    language, or the exception that ends it. *)
Variable metrics : string → string → result (gmap string R).



(** *** The contract *)



End Evaluate.

End Evaluate.

(** ** Facts about the Python primitives *)

Section result_facts.
Context {A B : Type}.
Implicit Types (f : A → result B) (l : list A) (k : list B).

Lemma mapM_result_cons f x l :
  mapM f (x :: l) = y ← f x; k ← mapM f l; Ok (y :: k).
Proof. reflexivity. Qed.

Lemma mapM_result_fmap f (g : A → B) l :
  (∀ x, x ∈ l → f x = Ok (g x)) → mapM f l = Ok (g <$> l).
Proof.
  induction l as [|x l IH]; intros Hf; [done|].
  rewrite mapM_result_cons, Hf by left. simpl.
  rewrite IH; [done|]. intros y Hy. apply Hf. by right.
Qed.

Lemma mapM_result_inv f l k :
  mapM f l = Ok k → Forall2 (λ x y, f x = Ok y) l k.
Proof.
  revert k. induction l as [|x l IH]; intros k.
  - intros [= <-]. constructor.
  - rewrite mapM_result_cons. destruct (f x) as [y|e] eqn:Hy; [|done]. simpl.
    destruct (mapM f l) as [k'|e]; [|done]. simpl. intros [= <-].
    constructor; [done|]. by apply IH.
Qed.

Lemma mapM_result_length f l k : mapM f l = Ok k → length k = length l.
Proof. intros H%mapM_result_inv. symmetry. by eapply Forall2_length. Qed.
End result_facts.

Lemma sum_float_acc (a : R) (l : list R) :
  foldl Rplus a l = (a + sum_float l)%R.
Proof.
  unfold sum_float. revert a. induction l as [|x l IH]; intros a; simpl.
  - lra.
  - rewrite (IH (a + x)%R), (IH (0 + x)%R). lra.
Qed.

Lemma sum_float_nil : sum_float [] = 0%R.
Proof. reflexivity. Qed.

Lemma sum_float_cons (x : R) (l : list R) :
  sum_float (x :: l) = (x + sum_float l)%R.
Proof. unfold sum_float at 1. simpl. rewrite sum_float_acc. lra. Qed.


Lemma sum_float_div (c : R) (l : list R) :
  sum_float ((λ x, x / c)%R <$> l) = (sum_float l / c)%R.
Proof.
  induction l as [|x l IH].
  - simpl. rewrite sum_float_nil. unfold Rdiv. lra.
  - rewrite fmap_cons, !sum_float_cons, IH. unfold Rdiv. lra.
Qed.

Lemma sum_float_pos (l : list R) :
  l ≠ [] → Forall (λ x, 0 < x)%R l → (0 < sum_float l)%R.
Proof.
  intros Hne Hl. induction Hl as [|x l Hx Hl IH]; [done|].
  rewrite sum_float_cons. destruct l as [|y l].
  - rewrite sum_float_nil. lra.
  - assert (0 < sum_float (y :: l))%R by (by apply IH). lra.
Qed.

Lemma sum_float_const (c : R) {A} (l : list A) :
  sum_float ((λ _, c) <$> l) = (INR (length l) * c)%R.
Proof.
  induction l as [|x l IH].
  - simpl. rewrite sum_float_nil. lra.
  - rewrite fmap_cons, sum_float_cons, IH. cbn [length]. rewrite S_INR. lra.
Qed.

Lemma sum_float_INR (l : list nat) :
  sum_float (INR <$> l) = INR (sum_list l).
Proof.
  induction l as [|x l IH]; [done|].
  rewrite fmap_cons, sum_float_cons, IH. simpl. by rewrite plus_INR.
Qed.

Lemma truediv_ok (x y : R) : y ≠ 0%R → truediv x y = Ok (x / y)%R.
Proof. intros Hy. unfold truediv. by rewrite decide_False. Qed.

Lemma truediv_inv (x y q : R) : truediv x y = Ok q → y ≠ 0%R ∧ q = (x / y)%R.
Proof. unfold truediv. case_decide; [done|]. by intros [= <-]. Qed.

Lemma float_pow_pos (x y : R) : (0 < x)%R → float_pow x y = Ok (Rpower x y).
Proof.
  intros Hx. unfold float_pow. case_decide as Hy.
  - subst y. by rewrite Rpower_O.
  - rewrite decide_False by lra. by rewrite decide_False by lra.
Qed.

Lemma float_pow_0 (x : R) : float_pow x 0 = Ok 1%R.
Proof. unfold float_pow. by rewrite decide_True. Qed.

Lemma Rpower_pos (x y : R) : (0 < Rpower x y)%R.
Proof. unfold Rpower. apply exp_pos. Qed.

(** ** The probability vector *)

Section probabilities.
Import Sampler.
Implicit Types (dataset_size : list nat) (task_ratio : R).

Lemma sum_list_pos dataset_size s :
  Forall (λ s, 0 < s) dataset_size → s ∈ dataset_size →
  0 < sum_list dataset_size.
Proof.
  intros Hpos Hs. rewrite Forall_forall in Hpos.
  pose proof (Hpos _ Hs). pose proof (sum_list_with_in s Datatypes.id _ Hs) as Hle.
  unfold Datatypes.id in Hle at 1. lia.
Qed.

Lemma proportion_pos dataset_size s :
  Forall (λ s, 0 < s) dataset_size → s ∈ dataset_size →
  (0 < proportion dataset_size s)%R.
Proof.
  intros Hpos Hs. unfold proportion. apply Rdiv_lt_0_compat.
  - apply lt_0_INR. rewrite Forall_forall in Hpos. by apply Hpos.
  - apply lt_0_INR. by eapply sum_list_pos.
Qed.

Lemma tempered_pos dataset_size task_ratio :
  Forall (λ x, 0 < x)%R (tempered dataset_size task_ratio).
Proof.
  unfold tempered. apply Forall_fmap, Forall_true. intros s. apply Rpower_pos.
Qed.

Lemma tempered_nil_iff dataset_size task_ratio :
  tempered dataset_size task_ratio = [] ↔ dataset_size = [].
Proof. unfold tempered. by destruct dataset_size. Qed.

Lemma sum_proportion dataset_size :
  sum_list dataset_size ≠ 0 →
  sum_float (proportion dataset_size <$> dataset_size) = 1%R.
Proof.
  intros HS. unfold proportion.
  change (λ s, INR s / INR (sum_list dataset_size))%R
    with ((λ x, x / INR (sum_list dataset_size))%R ∘ INR).
  rewrite list_fmap_compose, sum_float_div, sum_float_INR.
  apply Rdiv_diag. by apply not_0_INR.
Qed.

Lemma sum_renormalize (v : list R) :
  sum_float v ≠ 0%R → sum_float (renormalize v) = 1%R.
Proof.
  intros Hv. unfold renormalize. rewrite sum_float_div. by apply Rdiv_diag.
Qed.

(** On positive sizes none of the divisions and powers raises, and the
    vector is the renormalised [tempered] one. *)
Lemma merge_probs_positive dataset_size task_ratio :
  Forall (λ s, 0 < s) dataset_size →
  merge_probs dataset_size task_ratio
  = Ok (renormalize (tempered dataset_size task_ratio)).
Proof.
  intros Hpos. unfold merge_probs.
  rewrite (mapM_result_fmap _ (proportion dataset_size)); last first.
  { intros s Hs. apply truediv_ok, not_0_INR.
    pose proof (sum_list_pos _ _ Hpos Hs). lia. }
  simpl.
  rewrite (mapM_result_fmap _ (λ x, Rpower x task_ratio)); last first.
  { intros x (s & -> & Hs)%list_elem_of_fmap.
    apply float_pow_pos. by apply proportion_pos. }
  simpl. rewrite <-list_fmap_compose.
  change ((λ x, Rpower x task_ratio) ∘ proportion dataset_size <$> dataset_size)
    with (tempered dataset_size task_ratio).
  rewrite (mapM_result_fmap _
    (λ x, x / sum_float (tempered dataset_size task_ratio))%R); [done|].
  intros x Hx. apply truediv_ok.
  assert (0 < sum_float (tempered dataset_size task_ratio))%R; [|lra].
  apply sum_float_pos; [|apply tempered_pos].
  intros Hnil. rewrite Hnil in Hx. by apply elem_of_nil in Hx.
Qed.

Lemma mapM_truediv_inv (c : R) (l k : list R) :
  mapM (λ x, truediv x c) l = Ok k →
  k = (λ x, x / c)%R <$> l ∧ (l ≠ [] → c ≠ 0%R).
Proof.
  intros H%mapM_result_inv.
  induction H as [|x y l k Hxy _ [-> _]]; [done|].
  apply truediv_inv in Hxy as [Hc ->]. by rewrite fmap_cons.
Qed.

(** Whenever the vector is computed at all, it sums to 1. *)
Lemma merge_probs_sum dataset_size task_ratio probs :
  merge_probs dataset_size task_ratio = Ok probs →
  probs ≠ [] → sum_float probs = 1%R.
Proof.
  unfold merge_probs. intros H Hne.
  destruct (mapM _ dataset_size) as [p0|]; [simpl in H|done].
  destruct (mapM _ p0) as [p1|]; [simpl in H|done].
  apply mapM_truediv_inv in H as [-> Hc].
  apply sum_renormalize, Hc. intros ->. by apply Hne.
Qed.

Lemma merge_probs_length dataset_size task_ratio probs :
  merge_probs dataset_size task_ratio = Ok probs →
  length probs = length dataset_size.
Proof.
  unfold merge_probs. intros H.
  destruct (mapM _ dataset_size) as [p0|] eqn:H0; [simpl in H|done].
  destruct (mapM _ p0) as [p1|] eqn:H1; [simpl in H|done].
  apply mapM_result_length in H0, H1, H. congruence.
Qed.
End probabilities.

(** C1, amended: over exact real arithmetic, on positive sizes
    [merge_dataset] computes the renormalisation of [((s_i / Σs)^r)_i] for
    every exponent [r]; for [r = 1] that is the size-proportional vector
    [s_i / Σs] and for [r = 0] the uniform one [1 / k]. *)
Theorem merge_probs_contract (dataset_size : list nat) :
  Forall (λ s, 0 < s) dataset_size →
  (∀ task_ratio : R,
     Sampler.merge_probs dataset_size task_ratio
     = Ok (Sampler.renormalize (Sampler.tempered dataset_size task_ratio)))
  ∧ Sampler.merge_probs dataset_size 1
    = Ok (Sampler.proportion dataset_size <$> dataset_size)
  ∧ Sampler.merge_probs dataset_size 0
    = Ok ((λ _, 1 / INR (length dataset_size))%R <$> dataset_size).
Proof.
  intros Hpos. split; [intros r; by apply merge_probs_positive|].
  rewrite !merge_probs_positive by done.
  destruct (decide (dataset_size = [])) as [->|Hne]; [done|].
  assert (sum_list dataset_size ≠ 0) as HS.
  { destruct dataset_size as [|s l]; [done|].
    pose proof (sum_list_pos (s :: l) s Hpos).
    assert (s ∈ s :: l) by left. intuition lia. }
  split; f_equal.
  - assert (Sampler.tempered dataset_size 1
            = Sampler.proportion dataset_size <$> dataset_size) as ->.
    { unfold Sampler.tempered. apply list_fmap_ext. intros i s Hs.
      apply Rpower_1, proportion_pos; [done|]. by eapply list_elem_of_lookup_2. }
    unfold Sampler.renormalize. rewrite sum_proportion by done.
    etrans; [|apply list_fmap_id]. apply list_fmap_ext.
    intros i x _. unfold Datatypes.id. lra.
  - assert (Sampler.tempered dataset_size 0 = (λ _, 1%R) <$> dataset_size) as ->.
    { unfold Sampler.tempered. apply list_fmap_ext. intros i s Hs.
      apply Rpower_O, proportion_pos; [done|]. by eapply list_elem_of_lookup_2. }
    unfold Sampler.renormalize. rewrite sum_float_const, <-list_fmap_compose.
    apply list_fmap_ext. intros i x _. simpl. f_equal. lra.
Qed.

Lemma merge_probs_contract_witness :
  (∀ task_ratio : R,
     Sampler.merge_probs [1; 3] task_ratio
     = Ok (Sampler.renormalize (Sampler.tempered [1; 3] task_ratio)))
  ∧ Sampler.merge_probs [1; 3] 1 = Ok (Sampler.proportion [1; 3] <$> [1; 3])
  ∧ Sampler.merge_probs [1; 3] 0 = Ok ((λ _, 1 / INR 2)%R <$> [1; 3]).
Proof. apply (merge_probs_contract [1; 3]). repeat constructor. Defined.

(** C4: for a non-empty list of positive sizes and every exponent, the
    probability vector of [merge_dataset] is computed and sums to 1. *)
Theorem merge_probs_sum_one (dataset_size : list nat) (task_ratio : R) :
  dataset_size ≠ [] →
  Forall (λ s, 0 < s) dataset_size →
  ∃ probs, Sampler.merge_probs dataset_size task_ratio = Ok probs
           ∧ sum_float probs = 1%R.
Proof.
  intros Hne Hpos. eexists. split; [by apply merge_probs_positive|].
  apply sum_renormalize.
  assert (0 < sum_float (Sampler.tempered dataset_size task_ratio))%R; [|lra].
  apply sum_float_pos; [|apply tempered_pos]. by rewrite tempered_nil_iff.
Qed.

Lemma merge_probs_sum_one_witness :
  ∃ probs, Sampler.merge_probs [2; 5; 1] (1 / 2) = Ok probs
           ∧ sum_float probs = 1%R.
Proof.
  apply (merge_probs_sum_one [2; 5; 1] (1 / 2)); [done|repeat constructor].
Defined.

(** ** The scan over the probability vector *)

Section scan.
Import Sampler.
Implicit Types (probs rest : list R) (r : R) (i j : nat).

(** [len(probs)] rounds of fuel never cut the loop short. *)
Lemma scan_walk fuel probs r i :
  length probs ≤ i + fuel → scan fuel probs r i = walk (drop i probs) r i.
Proof.
  revert r i. induction fuel as [|fuel IH]; intros r i Hfuel.
  - rewrite drop_ge by lia. done.
  - cbn [scan]. destruct (decide (i < length probs)) as [Hi|Hi].
    + destruct (lookup_lt_is_Some_2 probs i Hi) as [p Hp].
      rewrite (drop_S _ _ _ Hp), Hp. cbn [walk].
      rewrite (bool_decide_true (i < _)) by done. rewrite andb_true_r.
      case_bool_decide; [|done]. apply IH. lia.
    + rewrite (bool_decide_false (i < _)) by done. rewrite andb_false_r.
      by rewrite drop_ge by lia.
Qed.

Lemma select_walk probs r : select probs r = (Z.of_nat (walk probs r 0) - 1)%Z.
Proof. unfold select. by rewrite scan_walk by lia. Qed.

Lemma walk_shift rest r i : walk rest r i = i + walk rest r 0.
Proof.
  revert r i. induction rest as [|p rest IH]; intros r i; cbn [walk]; [lia|].
  case_bool_decide; [|lia]. rewrite (IH _ (S i)), (IH _ 1). lia.
Qed.


Lemma walk_neg rest r : (r < 0)%R → walk rest r 0 = 0.
Proof.
  intros Hr. destruct rest as [|p rest]; [done|]. cbn [walk].
  rewrite bool_decide_false; [done|lra].
Qed.


Lemma cumulative_0 rest : cumulative rest 0 = 0%R.
Proof. reflexivity. Qed.

Lemma cumulative_S p rest j :
  cumulative (p :: rest) (S j) = (p + cumulative rest j)%R.
Proof. unfold cumulative. cbn [take]. apply sum_float_cons. Qed.

(** The loop leaves at the first cumulative sum that exceeds the draw. *)
Lemma walk_bracket rest r :
  (0 <= r)%R → (r < sum_float rest)%R →
  ∃ j, walk rest r 0 = S j ∧ j < length rest
       ∧ (cumulative rest j <= r < cumulative rest (S j))%R
       ∧ ∀ j', j' ≤ j → (cumulative rest j' <= r)%R.
Proof.
  revert r. induction rest as [|p rest IH]; intros r Hr Hsum.
  { rewrite sum_float_nil in Hsum. lra. }
  rewrite sum_float_cons in Hsum. cbn [walk].
  rewrite bool_decide_true by done. rewrite walk_shift.
  destruct (decide (0 <= r - p)%R) as [Hrp|Hrp].
  - destruct (IH (r - p)%R) as (j & Hj & Hlen & Hin & Hleast); [done|lra|].
    exists (S j). rewrite Hj. split; [done|]. split; [simpl; lia|].
    rewrite !cumulative_S. split; [lra|].
    intros [|j'] Hj'; [rewrite cumulative_0; lra|].
    rewrite cumulative_S.
    assert (cumulative rest j' <= r - p)%R by (apply Hleast; lia). lra.
  - exists 0. rewrite walk_neg by lra. split; [done|]. split; [simpl; lia|].
    rewrite cumulative_S, !cumulative_0. split; [lra|].
    intros j' Hj'. assert (j' = 0) as -> by lia. rewrite cumulative_0. lra.
Qed.



End scan.

(** C2, amended: over exact real arithmetic, for a probability vector
    computed by [merge_dataset] and a draw [u] in [[0, 1)], the scan
    selects the index [i] whose cumulative interval
    [[p_0 + ... + p_(i-1), p_0 + ... + p_i)] contains [u], and [i] is the
    least index with [u < p_0 + ... + p_i]. *)
Theorem select_cumulative_interval
    (dataset_size : list nat) (task_ratio : R) (probs : list R) (u : R) :
  Sampler.merge_probs dataset_size task_ratio = Ok probs →
  dataset_size ≠ [] →
  (0 <= u < 1)%R →
  ∃ i : nat,
    Sampler.select probs u = Z.of_nat i
    ∧ i < length dataset_size
    ∧ (Sampler.cumulative probs i <= u < Sampler.cumulative probs (S i))%R
    ∧ ∀ j : nat, (u < Sampler.cumulative probs (S j))%R → i ≤ j.
Proof.
  intros Hprobs Hne [Hu0 Hu1].
  pose proof (merge_probs_length _ _ _ Hprobs) as Hlen.
  assert (probs ≠ []) as Hpne.
  { intros ->. destruct dataset_size; [done|]. simpl in Hlen. lia. }
  pose proof (merge_probs_sum _ _ _ Hprobs Hpne) as Hsum.
  destruct (walk_bracket probs u) as (i & Hi & Hlt & Hin & Hleast); [done|lra|].
  exists i. rewrite select_walk, Hi. split; [lia|]. split; [lia|]. split; [done|].
  intros j Hj. destruct (decide (i ≤ j)) as [|Hji]; [done|].
  assert (Sampler.cumulative probs (S j) <= u)%R by (apply Hleast; lia). lra.
Qed.

Lemma select_cumulative_interval_witness :
  ∃ i : nat,
    Sampler.select (Sampler.renormalize (Sampler.tempered [1; 3] 1)) (1 / 2)
    = Z.of_nat i
    ∧ i < length [1; 3]
    ∧ (Sampler.cumulative
         (Sampler.renormalize (Sampler.tempered [1%nat; 3%nat] 1)) i
       <= 1 / 2
       < Sampler.cumulative
           (Sampler.renormalize (Sampler.tempered [1%nat; 3%nat] 1)) (S i))%R
    ∧ ∀ j : nat,
        (1 / 2 < Sampler.cumulative
                   (Sampler.renormalize (Sampler.tempered [1%nat; 3%nat] 1))
                   (S j))%R →
        i ≤ j.
Proof.
  apply (select_cumulative_interval [1; 3] 1).
  - apply merge_probs_positive. repeat constructor.
  - done.
  - lra.
Defined.

(** ** Indexing with an index in range *)

Section indexing.
Context {A : Type}.
Implicit Types (l : list A) (i : nat) (x : A).

Lemma py_pos_nat l i : i < length l → py_pos l (Z.of_nat i) = Ok i.
Proof.
  intros Hi. unfold py_pos. rewrite bool_decide_true by lia.
  by rewrite Nat2Z.id.
Qed.

Lemma py_getitem_nat l i x : l !! i = Some x → py_getitem l (Z.of_nat i) = Ok x.
Proof.
  intros Hx. unfold py_getitem.
  rewrite py_pos_nat by (by eapply lookup_lt_Some). simpl. by rewrite Hx.
Qed.

Lemma py_setitem_nat l i x :
  i < length l → py_setitem l (Z.of_nat i) x = Ok (<[i := x]> l).
Proof. intros Hi. unfold py_setitem. by rewrite py_pos_nat. Qed.
Lemma py_getitem_beyond l i :
  length l ≤ i → py_getitem l (Z.of_nat i) = Raise IndexError.
Proof.
  intros Hi. unfold py_getitem, py_pos. by rewrite !bool_decide_false by lia.
Qed.
End indexing.

Lemma py_pos_same_length {X Y} (l : list X) (k : list Y) (i : Z) :
  length l = length k → py_pos l i = py_pos k i.
Proof. intros Hlen. unfold py_pos. by rewrite Hlen. Qed.

(** ** The rounds of the generator *)

Section rounds.
Import Sampler.
Context {A : Type}.
Implicit Types (dataset_list iterators : list (list A)) (probs : list R).
Implicit Types (d it : list A) (out : list (Z * A)) (random : nat → R).

(** A round that draws the index [i]. *)
Lemma merge_next_at dataset_list probs iterators r i d it :
  select probs r = Z.of_nat i →
  iterators !! i = Some it →
  dataset_list !! i = Some d →
  merge_next dataset_list probs iterators r
  = match it with
    | item :: it' => Ok (Z.of_nat i, item, <[i := it']> iterators)
    | [] =>
        match d with
        | item :: d' => Ok (Z.of_nat i, item, <[i := d']> iterators)
        | [] => Raise StopIteration
        end
    end.
Proof.
  intros Hsel Hit Hd. unfold merge_next. rewrite Hsel.
  pose proof (lookup_lt_Some _ _ _ Hit) as Hlen.
  rewrite (py_getitem_nat _ _ _ Hit). simpl. destruct it as [|item it']; simpl.
  - rewrite (py_getitem_nat _ _ _ Hd). simpl.
    rewrite py_setitem_nat by done. simpl.
    rewrite (py_getitem_nat _ _ (iter d)) by (by apply list_lookup_insert_eq).
    simpl. unfold iter. destruct d as [|item d']; [done|]. simpl.
    rewrite py_setitem_nat by (by rewrite length_insert). simpl.
    by rewrite list_insert_insert_eq.
  - by rewrite py_setitem_nat.
Qed.

(** The index of a round that yields is the index the scan selected. *)
Lemma merge_next_index dataset_list probs iterators r i item iterators' :
  merge_next dataset_list probs iterators r = Ok (i, item, iterators') →
  i = select probs r.
Proof.
  unfold merge_next. intros H.
  destruct (py_getitem iterators _) as [[|x it']|]; simpl in H; [| |done].
  - destruct (py_getitem dataset_list _) as [d|]; simpl in H; [|done].
    destruct (py_setitem _ _ _) as [its1|]; simpl in H; [|done].
    destruct (py_getitem its1 _) as [[|y it1]|]; simpl in H; [done| |done].
    destruct (py_setitem _ _ _); simpl in H; [|done]. congruence.
  - destruct (py_setitem _ _ _); simpl in H; [|done]. congruence.
Qed.

Lemma generate_S dataset_list probs random n t iterators :
  generate dataset_list probs random (S n) t iterators
  = match merge_next dataset_list probs iterators (random t) with
    | Raise e => ([], Some e)
    | Ok (i, item, iterators) =>
        let '(out, e) := generate dataset_list probs random n (S t) iterators in
        ((i, item) :: out, e)
    end.
Proof. reflexivity. Qed.

Lemma generate_indices dataset_list probs random n t iterators out e :
  generate dataset_list probs random n t iterators = (out, e) →
  Forall (λ p, ∃ t', p.1 = select probs (random t')) out.
Proof.
  revert t iterators out e. induction n as [|n IH]; intros t its out e.
  - intros [= <- <-]. constructor.
  - rewrite generate_S.
    destruct (merge_next _ _ _ _) as [[[i item] its']|e'] eqn:Hnext.
    + destruct (generate _ _ _ n _ _) as [out' e'] eqn:Hgen.
      intros [= <- <-]. constructor; [|by eapply IH].
      exists t. simpl. by eapply merge_next_index.
    + intros [= <- <-]. constructor.
Qed.

Lemma suffixes_iter dataset_list : suffixes dataset_list (iter <$> dataset_list).
Proof.
  unfold suffixes. apply Forall2_fmap_r, Forall_Forall2_diag, Forall_true.
  intros d. exists 0. split; [lia|done].
Qed.

Lemma suffixes_insert dataset_list iterators i d m :
  suffixes dataset_list iterators →
  dataset_list !! i = Some d → m ≤ length d →
  suffixes dataset_list (<[i := drop m d]> iterators).
Proof.
  intros Hsuf Hd Hm. unfold suffixes.
  rewrite <-(list_insert_id dataset_list i d Hd).
  apply Forall2_insert; [done|]. by exists m.
Qed.

End rounds.

Section task_items_facts.
Import Sampler.
Context {A : Type}.
Implicit Types (dataset_list iterators : list (list A)) (probs : list R).
Implicit Types (d it : list A) (out : list (Z * A)) (random : nat → R).

Lemma task_items_cons (i i' : Z) (x : A) out :
  task_items i ((i', x) :: out)
  = if decide (i' = i) then x :: task_items i out else task_items i out.
Proof.
  unfold task_items. case_decide.
  - by rewrite filter_cons_True.
  - by rewrite filter_cons_False.
Qed.

Lemma task_items_none (i : Z) out :
  Forall (λ p, p.1 ≠ i) out → task_items i out = [].
Proof.
  intros Hout. induction Hout as [|[i' x] out Hi _ IH]; [done|].
  rewrite task_items_cons. by rewrite decide_False.
Qed.

End task_items_facts.

(** ** Small runs *)

(** Evaluates the scan on a vector of numerals. *)
Ltac eval_select :=
  rewrite select_walk; cbn [Sampler.walk];
  repeat first [rewrite bool_decide_true by lra
               |rewrite bool_decide_false by lra];
  reflexivity.

Example select_low : Sampler.select [(1 / 2)%R; (1 / 2)%R] (1 / 4) = 0%Z.
Proof. eval_select. Qed.

Example select_high : Sampler.select [(1 / 2)%R; (1 / 2)%R] (3 / 4) = 1%Z.
Proof. eval_select. Qed.

(** A draw of exactly the sum falls off the end of the vector and is
    clamped to the last index. *)
Example select_past_the_end : Sampler.select [(1 / 2)%R; (1 / 2)%R] 1 = 1%Z.
Proof. eval_select. Qed.

(** Two tasks of two items and of one item, drawn alternately: each task
    cycles through its own dataset. *)
Example generate_alternating :
  Sampler.generate [[10; 11]; [20]] [(1 / 2)%R; (1 / 2)%R]
    (λ t, if Nat.even t then (1 / 4)%R else (3 / 4)%R) 5 0 [[10; 11]; [20]]
  = ([(0%Z, 10); (1%Z, 20); (0%Z, 11); (1%Z, 20); (0%Z, 10)], None).
Proof.
  rewrite generate_S. cbn [Nat.even].
  rewrite (merge_next_at _ _ _ _ 0 [10; 11] [10; 11] select_low) by done.
  rewrite generate_S. cbn [Nat.even].
  rewrite (merge_next_at _ _ _ _ 1 [20] [20] select_high) by done.
  rewrite generate_S. cbn [Nat.even].
  rewrite (merge_next_at _ _ _ _ 0 [10; 11] [11] select_low) by done.
  rewrite generate_S. cbn [Nat.even].
  rewrite (merge_next_at _ _ _ _ 1 [20] [] select_high) by done.
  rewrite generate_S. cbn [Nat.even].
  rewrite (merge_next_at _ _ _ _ 0 [10; 11] [] select_low) by done.
  reflexivity.
Qed.

(** ** The contract of the generator *)

Section generator_contract.
Import Sampler.
Context {A : Type}.
Implicit Types (dataset_list : list (list A)) (dataset_size : list nat).
Implicit Types (random : nat → R).

Lemma merge_dataset_generate dataset_list dataset_size task_ratio random n probs :
  merge_probs dataset_size task_ratio = Ok probs →
  merge_dataset dataset_list dataset_size task_ratio random n
  = generate dataset_list probs random n 0 (iter <$> dataset_list).
Proof. intros Hprobs. unfold merge_dataset. rewrite Hprobs. by destruct n. Qed.

End generator_contract.



(** With exponent 0 an empty dataset of size 0 gets the same probability
    as the others. *)
Lemma merge_probs_uniform_example :
  Sampler.merge_probs [1; 0] 0 = Ok [(1 / 2)%R; (1 / 2)%R].
Proof.
  unfold Sampler.merge_probs. cbn [mapM sum_list_with Datatypes.id Nat.add INR].
  rewrite !truediv_ok by lra.
  cbn [mapM mbind result_bind mret result_ret].
  rewrite !float_pow_0.
  cbn [mapM mbind result_bind mret result_ret].
  unfold sum_float. cbn [foldl].
  rewrite !truediv_ok by lra.
  cbn [mbind result_bind mret result_ret].
  do 2 f_equal; [lra|f_equal; lra].
Qed.

(** C3, as stated, fails: with exponent 0 the draw 3/4 selects the second
    task, whose dataset is empty; restarting its iterator gives nothing,
    and the [StopIteration] of the second [next] ends the generator before
    it has yielded a single pair. *)
Lemma merge_dataset_empty_task_stops :
  Sampler.merge_dataset [[7]; []] [1; 0] 0 (λ _, (3 / 4)%R) 1
  = ([], Some StopIteration)
  ∧ ¬ ∃ out,
        Sampler.merge_dataset [[7]; []] [1; 0] 0 (λ _, (3 / 4)%R) 1 = (out, None)
        ∧ length out = 1.
Proof.
  assert (Sampler.merge_dataset [[7]; []] [1; 0] 0 (λ _, (3 / 4)%R) 1
          = ([], Some StopIteration)) as Hrun.
  { rewrite (merge_dataset_generate _ _ _ _ _ _ merge_probs_uniform_example).
    rewrite generate_S.
    by rewrite (merge_next_at _ _ _ _ 1 [] [] select_high). }
  split; [done|]. rewrite Hrun. by intros (out & [= <-] & _).
Qed.

(** ** The binary64 sampler *)

Section scan64.
Import Sampler64.
Implicit Types (probs : list float) (r : float) (i : nat).

Lemma scan64_bounds fuel probs r i :
  i ≤ scan fuel probs r i ∧ scan fuel probs r i ≤ i `max` length probs.
Proof.
  revert r i. induction fuel as [|fuel IH]; intros r i; cbn [scan]; [lia|].
  destruct (PrimFloat.leb 0 r); cbn [andb]; [|lia].
  destruct (Nat.ltb_spec i (length probs)); [|lia].
  destruct (probs !! i) as [p|]; [|lia].
  specialize (IH (PrimFloat.sub r p) (S i)). lia.
Qed.

(** Whatever the entries and the draw are, floats or not numbers. *)
Lemma select64_bounds probs r :
  (-1 ≤ select probs r < Z.of_nat (length probs))%Z.
Proof.
  unfold select. pose proof (scan64_bounds (length probs) probs r 0). lia.
Qed.

Lemma select64_nonneg probs r :
  probs ≠ [] → PrimFloat.leb 0 r = true → (0 ≤ select probs r)%Z.
Proof.
  intros Hne Hr. destruct probs as [|p probs]; [done|].
  unfold select. cbn [length scan]. rewrite Hr.
  cbn [andb Nat.ltb Nat.leb lookup list_lookup].
  pose proof (scan64_bounds (length probs) (p :: probs) (PrimFloat.sub r p) 1).
  lia.
Qed.

Lemma merge_probs64_length pow dataset_size task_ratio probs :
  merge_probs pow dataset_size task_ratio = Ok probs →
  length probs = length dataset_size.
Proof.
  unfold merge_probs. intros H.
  destruct (mapM _ dataset_size) as [p0|] eqn:H0; [simpl in H|done].
  destruct (mapM _ p0) as [p1|] eqn:H1; [simpl in H|done].
  apply mapM_result_length in H0, H1, H. congruence.
Qed.
End scan64.

Section rounds64.
Import Sampler64.
Context {A : Type}.
Implicit Types (ds : list (@dataset A)) (its : list (list A)).
Implicit Types (probs : list float) (r : float) (random : nat → float).
Implicit Types (d : @dataset A) (it : list A) (out : list (Z * A)).

(** The position that an index selects in a list that is not shorter
    than [probs]: the index itself, or the last position for [-1]. *)
Lemma select64_pos {X} (l : list X) probs r :
  l ≠ [] → length probs ≤ length l →
  ∃ j, py_pos l (select probs r) = Ok j ∧ j < length l.
Proof.
  intros Hne Hlen. pose proof (select64_bounds probs r) as Hsel.
  assert (0 < length l) by (destruct l; [done|simpl; lia]).
  unfold py_pos. destruct (decide (0 ≤ select probs r)%Z) as [H0|H0].
  - rewrite bool_decide_true by lia. eexists. split; [done|]. lia.
  - rewrite bool_decide_false by lia. rewrite bool_decide_true by lia.
    eexists. split; [done|]. lia.
Qed.

(** A round that draws the position [j]. *)
Lemma merge_next64_at ds probs its r j d it :
  py_pos its (select probs r) = Ok j →
  length ds = length its →
  its !! j = Some it → ds !! j = Some d →
  merge_next ds probs its r
  = match it with
    | item :: it' => Ok (select probs r, item, ds, <[j := it']> its)
    | [] =>
        match d 0 with
        | item :: it' =>
            Ok (select probs r, item, <[j := λ k, d (S k)]> ds,
                <[j := it']> its)
        | [] => Raise StopIteration
        end
    end.
Proof.
  intros Hpos Hlen Hit Hd. unfold merge_next, py_getitem, py_setitem.
  rewrite Hpos. cbn [mbind result_bind]. rewrite Hit.
  destruct it as [|item it']; cbn [next mbind result_bind].
  - rewrite (py_pos_same_length ds its) by done. rewrite Hpos.
    cbn [mbind result_bind]. rewrite Hd. cbn [mbind result_bind].
    rewrite (py_pos_same_length (<[j := _]> its) its)
      by (by rewrite length_insert).
    rewrite Hpos. cbn [mbind result_bind iter fst snd].
    rewrite list_lookup_insert_eq by (by eapply lookup_lt_Some).
    destruct (d 0) as [|item it']; cbn [next mbind result_bind]; [done|].
    by rewrite list_insert_insert_eq.
  - done.
Qed.

Lemma generate64_S ds probs random n t its :
  generate ds probs random (S n) t its
  = match merge_next ds probs its (random t) with
    | Raise e => ([], Some e)
    | Ok (i, item, ds, its) =>
        let '(out, e) := generate ds probs random n (S t) its in
        ((i, item) :: out, e)
    end.
Proof. reflexivity. Qed.

(** The index of a round that yields is the index the scan selected. *)
Lemma merge_next64_index ds probs its r i item ds' its' :
  merge_next ds probs its r = Ok (i, item, ds', its') → i = select probs r.
Proof.
  unfold merge_next. intros H.
  destruct (py_getitem its _) as [[|x it']|]; simpl in H; [| |done].
  - destruct (py_getitem ds _) as [d|]; simpl in H; [|done].
    destruct (py_setitem ds _ _) as [ds1|]; simpl in H; [|done].
    destruct (py_setitem its _ _) as [its1|]; simpl in H; [|done].
    destruct (py_getitem its1 _) as [[|y it1]|]; simpl in H; [done| |done].
    destruct (py_setitem _ _ _); simpl in H; [|done]. congruence.
  - destruct (py_setitem _ _ _); simpl in H; [|done]. congruence.
Qed.

(** The indices of the pairs are the indices that the scan selects on
    the successive draws. *)
Lemma generate64_indices ds probs random n t its out e :
  generate ds probs random n t its = (out, e) →
  out.*1 = (λ t', select probs (random t')) <$> seq t (length out).
Proof.
  revert t ds its out e. induction n as [|n IH]; intros t ds its out e.
  - by intros [= <- <-].
  - rewrite generate64_S.
    destruct (merge_next _ _ _ _) as [[[[i item] ds'] its']|e'] eqn:Hnext.
    + destruct (generate _ _ _ n _ _) as [out' e'] eqn:Hgen.
      intros [= <- <-]. cbn [fmap list_fmap length seq]. f_equal.
      * by eapply merge_next64_index.
      * by eapply IH.
    + by intros [= <- <-].
Qed.

(** With datasets none of whose iterations is empty a round never
    raises. *)
Lemma merge_next64_progress ds probs its r :
  Forall (λ d, ∀ k, d k ≠ []) ds →
  ds ≠ [] → length ds = length its → length probs ≤ length its →
  ∃ i item ds' its',
    merge_next ds probs its r = Ok (i, item, ds', its')
    ∧ Forall (λ d, ∀ k, d k ≠ []) ds'
    ∧ length ds' = length its' ∧ length its' = length its.
Proof.
  intros Hall Hne Hlen Hprobs.
  assert (its ≠ []) as Hine.
  { intros ->. destruct ds; [done|]. simpl in Hlen. lia. }
  destruct (select64_pos its probs r Hine Hprobs) as (j & Hpos & Hj).
  destruct (lookup_lt_is_Some_2 its j Hj) as [it Hit].
  destruct (lookup_lt_is_Some_2 ds j) as [d Hd]; [lia|].
  rewrite (merge_next64_at _ _ _ _ _ _ _ Hpos Hlen Hit Hd).
  pose proof (Forall_lookup_1 _ _ _ _ Hall Hd) as Hdne. simpl in Hdne.
  destruct it as [|item it'].
  - destruct (d 0) as [|item it'] eqn:Hd0; [by apply Hdne in Hd0|].
    eexists _, _, _, _. split; [done|]. split; [|by rewrite !length_insert].
    apply Forall_insert; [done|]. intros k. apply Hdne.
  - eexists _, _, _, _. split; [done|]. split; [done|].
    by rewrite !length_insert.
Qed.

Lemma generate64_progress ds probs random n t its :
  Forall (λ d, ∀ k, d k ≠ []) ds →
  ds ≠ [] → length ds = length its → length probs ≤ length its →
  ∃ out, generate ds probs random n t its = (out, None) ∧ length out = n.
Proof.
  revert t ds its. induction n as [|n IH]; intros t ds its Hall Hne Hlen Hprobs.
  { by exists []. }
  rewrite generate64_S.
  destruct (merge_next64_progress ds probs its (random t))
    as (i & item & ds' & its' & -> & Hall' & Hlen' & Hits'); [done..|].
  destruct (IH (S t) ds' its') as (out & -> & Hout); [done| |done|lia|].
  { intros ->. destruct its'; [|done]. destruct its; [|done].
    destruct ds; [done|]. simpl in Hlen. lia. }
  exists ((i, item) :: out). split; [done|]. simpl. by rewrite Hout.
Qed.

Lemma iterations_S d n : iterations d (S n) = iterations d n ++ d n.
Proof.
  unfold iterations. rewrite seq_S, fmap_app, concat_app. simpl.
  by rewrite app_nil_r.
Qed.

Lemma iterations_shift d n :
  iterations d (S n) = d 0 ++ iterations (λ k, d (S k)) n.
Proof.
  unfold iterations. cbn [seq fmap list_fmap concat]. f_equal. f_equal.
  rewrite <-fmap_S_seq, <-list_fmap_compose. done.
Qed.

(** From a state in which the iterator of task [i] holds [it] and its
    dataset is [d], the items yielded for task [i] are an initial part
    of [it] followed by the iterations of [d]. *)
Lemma generate64_task_items ds probs random n t its i d it :
  (∀ t, 0 ≤ select probs (random t))%Z →
  length ds = length its →
  ds !! i = Some d → its !! i = Some it →
  Sampler.task_items (Z.of_nat i) (generate ds probs random n t its).1
  `prefix_of` it ++ iterations d n.
Proof.
  intros Hsel. revert t ds its d it.
  induction n as [|n IH]; intros t ds its d it Hlen Hd Hit.
  { apply prefix_nil. }
  assert (it ++ iterations d n `prefix_of` it ++ iterations d (S n)) as Hmore.
  { apply prefix_app. rewrite iterations_S. by apply prefix_app_r. }
  rewrite generate64_S.
  destruct (Z_of_nat_complete (select probs (random t)) (Hsel t)) as [j Hj].
  destruct (decide (j < length its)) as [Hlt|Hge]; last first.
  { unfold merge_next. rewrite Hj, (py_getitem_beyond its) by lia. simpl.
    apply prefix_nil. }
  destruct (lookup_lt_is_Some_2 its j Hlt) as [it' Hit'].
  destruct (lookup_lt_is_Some_2 ds j) as [d' Hd']; [lia|].
  assert (py_pos its (select probs (random t)) = Ok j) as Hpos.
  { rewrite Hj. by apply py_pos_nat. }
  rewrite (merge_next64_at _ _ _ _ _ _ _ Hpos Hlen Hit' Hd'), Hj.
  destruct it' as [|item rest].
  - destruct (d' 0) as [|item rest] eqn:Hd0; [apply prefix_nil|].
    destruct (generate _ _ _ n _ _) as [out e] eqn:Hgen. cbn [fst].
    rewrite task_items_cons. destruct (decide (j = i)) as [->|Hne].
    + rewrite decide_True by done.
      assert (d' = d) as -> by congruence. assert (it = []) as -> by congruence.
      rewrite app_nil_l, iterations_shift, Hd0. cbn [app].
      apply prefix_cons.
      specialize (IH (S t) (<[i := λ k, d (S k)]> ds) (<[i := rest]> its)
                    (λ k, d (S k)) rest).
      rewrite Hgen in IH. apply IH.
      * by rewrite !length_insert.
      * apply list_lookup_insert_eq. by eapply lookup_lt_Some.
      * by apply list_lookup_insert_eq.
    + rewrite decide_False by lia. etrans; [|exact Hmore].
      specialize (IH (S t) (<[j := λ k, d' (S k)]> ds) (<[j := rest]> its) d it).
      rewrite Hgen in IH. apply IH.
      * by rewrite !length_insert.
      * by rewrite list_lookup_insert_ne.
      * by rewrite list_lookup_insert_ne.
  - destruct (generate _ _ _ n _ _) as [out e] eqn:Hgen. cbn [fst].
    rewrite task_items_cons. destruct (decide (j = i)) as [->|Hne].
    + rewrite decide_True by done.
      assert (it = item :: rest) as -> by congruence.
      etrans; [|exact Hmore]. cbn [app]. apply prefix_cons.
      specialize (IH (S t) ds (<[i := rest]> its) d rest).
      rewrite Hgen in IH. apply IH.
      * by rewrite !length_insert.
      * done.
      * by apply list_lookup_insert_eq.
    + rewrite decide_False by lia. etrans; [|exact Hmore].
      specialize (IH (S t) ds (<[j := rest]> its) d it).
      rewrite Hgen in IH. apply IH.
      * by rewrite !length_insert.
      * done.
      * by rewrite list_lookup_insert_ne.
Qed.

(** A dataset that iterates in one order, iterated [n] times, is that
    order cycled. *)
Lemma iterations_fixed d n j :
  (∀ k, d k = d 0) → j < length (iterations d n) →
  iterations d n !! j = d 0 !! (j mod length (d 0)).
Proof.
  intros Hfix. revert j. induction n as [|n IH]; intros j Hj.
  { simpl in Hj. lia. }
  assert (iterations d (S n) = d 0 ++ iterations d n) as Heq.
  { rewrite iterations_shift. f_equal. unfold iterations. f_equal.
    apply list_fmap_ext. intros ? k _. by rewrite (Hfix k), (Hfix (S k)). }
  rewrite Heq in Hj |- *. rewrite length_app in Hj.
  destruct (decide (j < length (d 0))) as [Hlt|Hge].
  - rewrite lookup_app_l by done. by rewrite Nat.mod_small.
  - rewrite lookup_app_r by lia.
    assert (j - length (d 0) < length (iterations d n)) as Hj' by lia.
    rewrite (IH _ Hj'). f_equal.
    replace j with ((j - length (d 0)) + 1 * length (d 0)) at 2 by lia.
    by rewrite Nat.Div0.mod_add.
Qed.

End rounds64.

Section merge64.
Import Sampler64.
Context {A : Type}.
Implicit Types (dataset_list : list (@dataset A)) (dataset_size : list nat).
Implicit Types (probs : list float) (random : nat → float).

Lemma merge_dataset64_generate pow dataset_list dataset_size task_ratio random
    n probs :
  merge_probs pow dataset_size task_ratio = Ok probs →
  merge_dataset pow dataset_list dataset_size task_ratio random n
  = generate ((λ d k, d (S k)) <$> dataset_list) probs random n 0
      ((λ d, d 0) <$> dataset_list).
Proof. intros Hprobs. unfold merge_dataset. rewrite Hprobs. by destruct n. Qed.

End merge64.

(** C3, amended: for a non-empty list of datasets none of whose
    iterations is empty, with one size per dataset, whenever the
    probability vector is computed, [merge_dataset] yields [n] pairs for
    every [n] and never raises, whatever the draws are; a round that
    selects a task whose iterator is exhausted calls [iter] on its
    dataset again and yields the first item of the new iteration. *)
Theorem merge_dataset_always_yields {A : Type}
    (pow : float → float → float)
    (dataset_list : list (nat → list A)) (dataset_size : list nat)
    (task_ratio : float) (probs : list float) (random : nat → float) :
  dataset_list ≠ [] →
  Forall (λ d, ∀ k, d k ≠ []) dataset_list →
  length dataset_size = length dataset_list →
  Sampler64.merge_probs pow dataset_size task_ratio = Ok probs →
  (∀ n, ∃ out,
     Sampler64.merge_dataset pow dataset_list dataset_size task_ratio random n
     = (out, None)
     ∧ length out = n)
  ∧ (∀ (datasets : list (nat → list A)) (iterators : list (list A)) u
       (i : nat) d,
       Sampler64.select probs u = Z.of_nat i →
       length datasets = length iterators →
       iterators !! i = Some [] →
       datasets !! i = Some d →
       (∀ k, d k ≠ []) →
       ∃ item it',
         d 0 = item :: it'
         ∧ Sampler64.merge_next datasets probs iterators u
           = Ok (Z.of_nat i, item, <[i := λ k, d (S k)]> datasets,
                 <[i := it']> iterators)).
Proof.
  intros Hne Hall Hlen Hprobs. split.
  - intros n. rewrite (merge_dataset64_generate _ _ _ _ _ _ _ Hprobs).
    apply generate64_progress.
    + apply Forall_fmap. eapply Forall_impl; [exact Hall|].
      intros d Hd k. apply Hd.
    + by destruct dataset_list.
    + by rewrite !length_fmap.
    + rewrite length_fmap, (merge_probs64_length _ _ _ _ Hprobs). lia.
  - intros ds its u i d Hsel Hlen' Hit Hd Hdne.
    assert (py_pos its (Sampler64.select probs u) = Ok i) as Hpos.
    { rewrite Hsel. apply py_pos_nat. by eapply lookup_lt_Some. }
    rewrite (merge_next64_at _ _ _ _ _ _ _ Hpos Hlen' Hit Hd), Hsel.
    destruct (d 0) as [|item it'] eqn:Hd0; [by apply Hdne in Hd0|].
    by eexists _, _.
Qed.

Lemma merge_dataset_always_yields_witness :
  (∀ n, ∃ out,
     Sampler64.merge_dataset (λ x _, x) [λ _, [10; 11]; λ _, [20]] [2; 1] 1
       (λ _, 0.5%float) n
     = (out, None)
     ∧ length out = n)
  ∧ (∀ (datasets : list (nat → list nat)) (iterators : list (list nat)) u
       (i : nat) d,
       Sampler64.select [0x1.5555555555555p-1%float; 0x1.5555555555555p-2%float] u
       = Z.of_nat i →
       length datasets = length iterators →
       iterators !! i = Some [] →
       datasets !! i = Some d →
       (∀ k, d k ≠ []) →
       ∃ item it',
         d 0 = item :: it'
         ∧ Sampler64.merge_next datasets
             [0x1.5555555555555p-1%float; 0x1.5555555555555p-2%float]
             iterators u
           = Ok (Z.of_nat i, item, <[i := λ k, d (S k)]> datasets,
                 <[i := it']> iterators)).
Proof.
  apply (merge_dataset_always_yields (λ x _, x) [λ _, [10; 11]; λ _, [20]]
           [2; 1] 1
           [0x1.5555555555555p-1%float; 0x1.5555555555555p-2%float]
           (λ _, 0.5%float)).
  - done.
  - repeat constructor; done.
  - reflexivity.
  - vm_compute. reflexivity.
Defined.

(** C5, amended: the items that [merge_dataset] yields with task index
    [i] are the items of the successive iterations of dataset [i], one
    iteration after the other: after the last item of an iteration comes
    the first item of the next one, whatever the draws select in between.
    For a dataset that iterates in the same order every time this is the
    dataset cycled.  On datasets none of whose iterations is empty, with
    one size per dataset and the probability vector computed, the
    generator yields [n] pairs for every [n], and their indices are the
    ones that the scan selects on the successive draws, all of them in
    [[0, k)]. *)
Theorem task_items_iterations {A : Type}
    (pow : float → float → float)
    (dataset_list : list (nat → list A)) (dataset_size : list nat)
    (task_ratio : float) (random : nat → float) (n i : nat)
    (d : nat → list A) :
  (∀ t, PrimFloat.leb 0 (random t) = true) →
  dataset_list !! i = Some d →
  Sampler.task_items (Z.of_nat i)
    (Sampler64.merge_dataset pow dataset_list dataset_size task_ratio
       random n).1
  `prefix_of` Sampler64.iterations d (S n)
  ∧ ((∀ k, d k = d 0) →
     ∀ j,
       j < length (Sampler.task_items (Z.of_nat i)
                     (Sampler64.merge_dataset pow dataset_list dataset_size
                        task_ratio random n).1) →
       Sampler.task_items (Z.of_nat i)
         (Sampler64.merge_dataset pow dataset_list dataset_size task_ratio
            random n).1
       !! j
       = d 0 !! (j mod length (d 0)))
  ∧ (Forall (λ d, ∀ k, d k ≠ []) dataset_list →
     length dataset_size = length dataset_list →
     ∀ probs,
       Sampler64.merge_probs pow dataset_size task_ratio = Ok probs →
       ∃ out,
         Sampler64.merge_dataset pow dataset_list dataset_size task_ratio
           random n
         = (out, None)
         ∧ length out = n
         ∧ out.*1 = (λ t, Sampler64.select probs (random t)) <$> seq 0 n
         ∧ Forall (λ p, (0 ≤ p.1 < Z.of_nat (length dataset_list))%Z) out).
Proof.
  intros Hr Hd.
  assert (Sampler.task_items (Z.of_nat i)
            (Sampler64.merge_dataset pow dataset_list dataset_size task_ratio
               random n).1
          `prefix_of` Sampler64.iterations d (S n)) as Hprefix.
  { destruct (Sampler64.merge_probs pow dataset_size task_ratio)
      as [probs|e] eqn:Hprobs; last first.
    { unfold Sampler64.merge_dataset. rewrite Hprobs.
      destruct n; apply prefix_nil. }
    rewrite (merge_dataset64_generate _ _ _ _ _ _ _ Hprobs).
    destruct (decide (probs = [])) as [->|Hpne].
    { destruct (Sampler64.generate _ _ _ _ _ _) as [out e] eqn:Hgen.
      rewrite task_items_none; [apply prefix_nil|].
      apply generate64_indices in Hgen. cbn [fst].
      apply Forall_forall. intros [i' x] Hin.
      assert (i' ∈ out.*1) as Hi'.
      { apply list_elem_of_fmap. by exists (i', x). }
      rewrite Hgen in Hi'. apply list_elem_of_fmap in Hi' as (t' & -> & _).
      simpl. unfold Sampler64.select. simpl. lia. }
    rewrite iterations_shift.
    apply generate64_task_items.
    - intros t. by apply select64_nonneg.
    - by rewrite !length_fmap.
    - by rewrite list_lookup_fmap, Hd.
    - by rewrite list_lookup_fmap, Hd. }
  split; [done|]. split.
  - intros Hfix j Hj. destruct Hprefix as [rest Hrest].
    rewrite <-(iterations_fixed d (S n) j Hfix).
    + rewrite Hrest. by rewrite lookup_app_l.
    + rewrite Hrest, length_app. lia.
  - intros Hall Hlen probs Hprobs.
    assert (dataset_list ≠ []) as Hne by (by intros ->).
    pose proof (merge_probs64_length _ _ _ _ Hprobs) as Hplen.
    rewrite (merge_dataset64_generate _ _ _ _ _ _ _ Hprobs).
    destruct (generate64_progress ((λ d k, d (S k)) <$> dataset_list) probs
                random n 0 ((λ d, d 0) <$> dataset_list))
      as (out & Hgen & Hout).
    + apply Forall_fmap. eapply Forall_impl; [exact Hall|].
      intros d' Hd' k. apply Hd'.
    + by destruct dataset_list.
    + by rewrite !length_fmap.
    + rewrite length_fmap. lia.
    + exists out. split; [done|]. split; [done|].
      pose proof (generate64_indices _ _ _ _ _ _ _ _ Hgen) as Hidx.
      rewrite Hout in Hidx. split; [done|].
      assert (probs ≠ []) as Hpne.
      { intros ->. destruct dataset_list; [done|]. simpl in *. lia. }
      apply Forall_forall. intros [i' x] Hin.
      assert (i' ∈ out.*1) as Hi'.
      { apply list_elem_of_fmap. by exists (i', x). }
      rewrite Hidx in Hi'. apply list_elem_of_fmap in Hi' as (t' & -> & _).
      simpl. pose proof (select64_nonneg probs (random t') Hpne (Hr t')).
      pose proof (select64_bounds probs (random t')). lia.
Qed.

Lemma task_items_iterations_witness :
  Sampler.task_items (Z.of_nat 0)
    (Sampler64.merge_dataset (λ x _, x) [λ _, [10; 11]; λ _, [20]] [2; 1] 1
       (λ _, 0.5%float) 5).1
  `prefix_of` Sampler64.iterations (λ _, [10; 11]) (S 5)
  ∧ ((∀ k : nat, [10; 11] = [10; 11]) →
     ∀ j,
       j < length (Sampler.task_items (Z.of_nat 0)
                     (Sampler64.merge_dataset (λ x _, x)
                        [λ _, [10; 11]; λ _, [20]] [2; 1] 1
                        (λ _, 0.5%float) 5).1) →
       Sampler.task_items (Z.of_nat 0)
         (Sampler64.merge_dataset (λ x _, x) [λ _, [10; 11]; λ _, [20]]
            [2; 1] 1 (λ _, 0.5%float) 5).1
       !! j
       = [10; 11] !! (j mod length [10; 11]))
  ∧ (Forall (λ d : nat → list nat, ∀ k, d k ≠ [])
       [λ _, [10; 11]; λ _, [20]] →
     length [2; 1] = length [λ _ : nat, [10; 11]; λ _, [20]] →
     ∀ probs,
       Sampler64.merge_probs (λ x _, x) [2; 1] 1 = Ok probs →
       ∃ out,
         Sampler64.merge_dataset (λ x _, x) [λ _, [10; 11]; λ _, [20]]
           [2; 1] 1 (λ _, 0.5%float) 5
         = (out, None)
         ∧ length out = 5
         ∧ out.*1 = (λ t, Sampler64.select probs 0.5%float) <$> seq 0 5
         ∧ Forall (λ p, (0 ≤ p.1 < Z.of_nat 2)%Z) out).
Proof.
  apply (task_items_iterations (λ x _, x) [λ _, [10; 11]; λ _, [20]] [2; 1] 1
           (λ _, 0.5%float) 5 0 (λ _, [10; 11])).
  - intros _. reflexivity.
  - reflexivity.
Defined.

(** The run that ends on an empty dataset, in floating point. *)
Example merge_dataset64_empty_task_stops :
  ∀ pow,
    Sampler64.merge_dataset pow [λ _, [7]; λ _, []] [1; 0] 0
      (λ _, 0.75%float) 1
    = ([], Some StopIteration).
Proof. intros pow. vm_compute. reflexivity. Qed.

(** Without a dataset the index [-1] has nothing to select. *)
Example merge_dataset64_no_dataset :
  ∀ pow,
    Sampler64.merge_dataset pow (@nil (nat → list nat)) [] 1
      (λ _, 0.75%float) 1
    = ([], Some IndexError).
Proof. intros pow. vm_compute. reflexivity. Qed.

(** With more sizes than datasets a draw selects past the iterators. *)
Example merge_dataset64_more_sizes :
  ∀ pow,
    Sampler64.merge_dataset pow [λ _, [7]] [1; 1] 0 (λ _, 0.75%float) 1
    = ([], Some IndexError).
Proof. intros pow. vm_compute. reflexivity. Qed.

(** C5, as stated, fails on a dataset that iterates in another order the
    second time, as a shuffling [DataLoader] does: of the items yielded
    for task 0 the one after the last item of the first iteration is 11,
    not the first item 10 again. *)
Lemma reshuffled_dataset_not_cycled :
  (∀ pow,
     Sampler64.merge_dataset pow
       [λ k, if Nat.even k then [10; 11] else [11; 10]] [2] 1
       (λ _, 0.5%float) 4
     = ([(0%Z, 10); (0%Z, 11); (0%Z, 11); (0%Z, 10)], None))
  ∧ Sampler.task_items 0 [(0%Z, 10); (0%Z, 11); (0%Z, 11); (0%Z, 10)] !! 2
    = Some 11
  ∧ [10; 11] !! (2 mod length [10; 11]) = Some 10.
Proof.
  split; [|split].
  - intros pow. vm_compute. reflexivity.
  - vm_compute. reflexivity.
  - reflexivity.
Qed.

Section float_values.
Import Binary64.

Lemma to_R_finite (x : float) s m e :
  Prim2SF x = S754_finite s m e →
  to_R x = ((if s then -1 else 1) * IZR (Z.pos m) * powerRZ 2 e)%R.
Proof. unfold to_R. by intros ->. Qed.
End float_values.

(** C1, as stated, fails in floating point.  On seven tasks of one item
    each the entries for the exponent 1 are 0.14285714285714288, while
    the proportion [1 / 7] is 0.14285714285714285 as a float and neither
    of them as a number; and an exponent that takes every power to
    [0.0], by underflow or as [inf] does, ends [merge_dataset] with a
    [ZeroDivisionError]. *)
Lemma merge_probs_rounding :
  (∀ pow, (∀ x, pow x 1%float = x) →
     Sampler64.merge_probs pow [1; 1; 1; 1; 1; 1; 1] 1
     = Ok (replicate 7 0x1.2492492492493p-3%float))
  ∧ Binary64.truediv_int 1 7 = Ok 0x1.2492492492492p-3%float
  ∧ PrimFloat.eqb 0x1.2492492492493p-3 0x1.2492492492492p-3 = false
  ∧ Binary64.to_R 0x1.2492492492493p-3 ≠ (1 / 7)%R
  ∧ (∀ pow, pow 0.5%float 1100%float = 0%float →
       Sampler64.merge_probs pow [1; 1] 1100 = Raise ZeroDivisionError)
  ∧ (∀ pow,
       Sampler64.merge_probs pow [1; 1] infinity = Raise ZeroDivisionError).
Proof.
  split; [|split; [|split; [|split; [|split]]]].
  - intros pow Hpow. vm_compute. rewrite !Hpow. vm_compute. reflexivity.
  - vm_compute. reflexivity.
  - vm_compute. reflexivity.
  - rewrite (to_R_finite _ false 5146971002709139 (-55))
      by (vm_compute; reflexivity).
    unfold powerRZ. intros H.
    assert (IZR 5146971002709139 * 7 = 2 ^ Pos.to_nat 55)%R as H7.
    { apply (Rmult_eq_reg_r (/ 2 ^ Pos.to_nat 55));
        [|apply Rinv_neq_0_compat, pow_nonzero; lra].
      rewrite Rinv_r by (apply pow_nonzero; lra). lra. }
    rewrite (pow_IZR 2), <-mult_IZR in H7. apply eq_IZR in H7.
    vm_compute in H7. discriminate.
  - intros pow Hpow. vm_compute. rewrite !Hpow. vm_compute. reflexivity.
  - intros pow. vm_compute. reflexivity.
Qed.

(** Evaluates [to_R] on the float literals of the goal. *)
Ltac eval_to_R :=
  repeat match goal with
  | |- context [Binary64.to_R ?x] =>
      let v := eval vm_compute in (Prim2SF x) in
      match v with
      | S754_finite ?s ?m ?e =>
          rewrite (to_R_finite x s m e) by (vm_compute; reflexivity)
      end
  end.

(** C2, as stated, fails in floating point.  On 24 tasks of one item each
    and the exponent 0 every probability is the float next to [1 / 24].
    The draw 0.5 lies in the cumulative interval of index 12, whether the
    sums are taken exactly or in floating point; the subtractions of the
    scan round, the remainder is negative one step early, and the scan
    selects index 11. *)
Lemma scan_misses_interval :
  (∀ pow,
     Sampler64.merge_probs pow (replicate 24 1) 0
     = Ok (replicate 24 0x1.5555555555555p-5%float))
  ∧ Sampler64.select (replicate 24 0x1.5555555555555p-5%float) 0.5 = 11%Z
  ∧ (Sampler64.cumulative (replicate 24 0x1.5555555555555p-5%float) 12
     <= Binary64.to_R 0.5
     < Sampler64.cumulative (replicate 24 0x1.5555555555555p-5%float) 13)%R
  ∧ PrimFloat.ltb 0.5
      (Binary64.sum_float (take 12 (replicate 24 0x1.5555555555555p-5%float)))
    = false.
Proof.
  split; [|split; [|split]].
  - intros pow. vm_compute. reflexivity.
  - vm_compute. reflexivity.
  - unfold Sampler64.cumulative, sum_float.
    cbn [replicate take fmap list_fmap foldl].
    eval_to_R. unfold powerRZ.
    assert (/ 2 ^ Pos.to_nat 53 = 16 * / 2 ^ Pos.to_nat 57)%R as ->.
    { replace (Pos.to_nat 57) with (4 + Pos.to_nat 53)%nat by reflexivity.
      rewrite pow_add. field. apply pow_nonzero. lra. }
    assert (0 < / 2 ^ Pos.to_nat 57)%R.
    { apply Rinv_0_lt_compat, pow_lt. lra. }
    lra.
  - vm_compute. reflexivity.
Qed.

(** ** average_dic: the loops *)

Section averaging_loops.
Import Averaging.
Implicit Types (h : heap) (d acc dic m : dict) (a n : nat).
Implicit Types (l : list (string * R)) (ks : list string).

(** Statements that rebind entries of the dictionary at [a] write to
    the heap at [a] only. *)
Lemma for_each_update_at {X} (f : X → dict → result dict) (xs : list X) a h :
  a < length h →
  for_each (λ h x, update_at a (f x) h) xs h
  = d ← for_each (λ d x, f x d) xs (h !!! a); Ok (<[a := d]> h).
Proof.
  revert h. induction xs as [|x xs IH]; intros h Ha; cbn [for_each].
  - simpl. by rewrite list_insert_id by (by apply list_lookup_lookup_total_lt).
  - assert (update_at a (f x) h = d ← f x (h !!! a); Ok (<[a := d]> h)) as ->
      by done.
    destruct (f x (h !!! a)) as [d1|e]; simpl; [|done].
    rewrite IH by (by rewrite length_insert).
    rewrite list_lookup_total_insert_eq by done.
    destruct (for_each _ xs d1); simpl; [|done].
    by rewrite list_insert_insert_eq.
Qed.

(** [for key, value in dic.items(): dic_sum[key] = value] *)
Lemma setitem_loop l m :
  NoDup l.*1 →
  for_each (λ d kv, setitem kv.1 kv.2 d) l m = Ok (list_to_map l ∪ m).
Proof.
  revert m. induction l as [|[k v] l IH]; intros m Hnd; simpl.
  - by rewrite (left_id_L ∅ (∪)).
  - inversion_clear Hnd as [|?? Hk Hnd']. rewrite IH by done. f_equal.
    rewrite <-insert_union_r by (by apply not_elem_of_list_to_map_1).
    by rewrite insert_union_l.
Qed.

Lemma setitem_items dic :
  for_each (λ d kv, setitem kv.1 kv.2 d) (map_to_list dic) ∅ = Ok dic.
Proof.
  rewrite setitem_loop by apply NoDup_fst_map_to_list.
  by rewrite list_to_map_to_list, (right_id_L ∅ (∪)).
Qed.

(** [for key, value in dic.items(): dic_sum[key] += value], when every
    key of [dic] is a key of [dic_sum]. *)
Lemma iadd_loop l m :
  NoDup l.*1 → (∀ k, k ∈ l.*1 → k ∈ dom m) →
  for_each (λ d kv, iadd kv.1 kv.2 d) l m = Ok (dict_add m (list_to_map l)).
Proof.
  revert m. induction l as [|[k v] l IH]; intros m Hnd Hdom;
    cbn [for_each fst snd].
  - f_equal. unfold dict_add. apply map_eq. intros i.
    rewrite lookup_union_with. simpl. rewrite lookup_empty.
    by destruct (m !! i).
  - inversion_clear Hnd as [|?? Hk Hnd'].
    assert (k ∈ dom m) as [x Hx]%elem_of_dom by (apply Hdom; simpl; left).
    assert (iadd k v m = Ok (<[k := (x + v)%R]> m)) as ->
      by (unfold iadd; by rewrite Hx).
    cbn [mbind result_bind]. rewrite IH; [|done|].
    + f_equal. unfold dict_add. apply map_eq. intros i.
      rewrite list_to_map_cons, !lookup_union_with.
      destruct (decide (i = k)) as [->|Hne].
      * rewrite !lookup_insert_eq, Hx.
        by rewrite (not_elem_of_list_to_map_1 _ _ Hk).
      * by rewrite !lookup_insert_ne.
    + intros k' Hk'. rewrite dom_insert_lookup_L by done.
      apply Hdom. simpl. by right.
Qed.

Lemma iadd_items dic acc :
  dom acc = dom dic →
  for_each (λ d kv, iadd kv.1 kv.2 d) (map_to_list dic) acc
  = Ok (dict_add acc dic).
Proof.
  intros Hdom. rewrite iadd_loop.
  - by rewrite list_to_map_to_list.
  - apply NoDup_fst_map_to_list.
  - intros k ([k' v] & -> & Hkv)%list_elem_of_fmap. rewrite Hdom.
    apply elem_of_map_to_list in Hkv. apply elem_of_dom. by eexists.
Qed.

(** [for key in dic_sum: dic_sum[key] /= n] *)
Lemma idiv_loop ks n m :
  n ≠ 0 → NoDup ks → (∀ k, k ∈ ks → k ∈ dom m) →
  ∃ r, for_each (λ d key, idiv key n d) ks m = Ok r
       ∧ ∀ k, r !! k = if decide (k ∈ ks)
                       then (λ v, v / INR n)%R <$> m !! k else m !! k.
Proof.
  intros Hn. revert m. induction ks as [|k0 ks IH]; intros m Hnd Hdom;
    cbn [for_each].
  - exists m. split; [done|]. intros k. rewrite decide_False; [done|].
    apply not_elem_of_nil.
  - inversion_clear Hnd as [|?? Hk Hnd'].
    assert (k0 ∈ dom m) as [x Hx]%elem_of_dom by (apply Hdom; left).
    assert (idiv k0 n m = Ok (<[k0 := (x / INR n)%R]> m)) as ->.
    { unfold idiv. rewrite Hx, truediv_ok by (by apply not_0_INR). done. }
    cbn [mbind result_bind].
    destruct (IH (<[k0 := (x / INR n)%R]> m)) as (r & -> & Hr); [done| |].
    { intros k Hk'. rewrite dom_insert_lookup_L by done. apply Hdom. by right. }
    exists r. split; [done|]. intros k. rewrite Hr.
    destruct (decide (k = k0)) as [->|Hne].
    + rewrite decide_False by done. rewrite lookup_insert_eq.
      rewrite decide_True by left. by rewrite Hx.
    + rewrite lookup_insert_ne by done.
      destruct (decide (k ∈ ks)).
      * rewrite decide_True; [done|by right].
      * rewrite decide_False; [done|]. rewrite elem_of_cons.
        by intros [?|?].
Qed.

Lemma idiv_keys n m :
  n ≠ 0 →
  for_each (λ d key, idiv key n d) (map_to_list m).*1 m
  = Ok ((λ v, v / INR n)%R <$> m).
Proof.
  intros Hn.
  destruct (idiv_loop (map_to_list m).*1 n m) as (r & -> & Hr); [done|..].
  - apply NoDup_fst_map_to_list.
  - intros k ([k' v] & -> & Hkv)%list_elem_of_fmap.
    apply elem_of_map_to_list in Hkv. apply elem_of_dom. by eexists.
  - f_equal. apply map_eq. intros k. rewrite Hr, lookup_fmap.
    case_decide as Hk; [done|]. destruct (m !! k) as [v|] eqn:Hv; [|done].
    destruct Hk. apply list_elem_of_fmap. exists (k, v). split; [done|].
    by apply elem_of_map_to_list.
Qed.

(** One round of [for dic in dic_list], on the heap [h] extended with
    the accumulator [acc]. *)
Lemma accumulate_heap h acc a dic :
  h !! a = Some dic →
  accumulate (length h) (h ++ [acc]) a
  = if bool_decide (size acc = 0) then Ok (h ++ [dic])
    else if bool_decide (dom acc = dom dic) then Ok (h ++ [dict_add acc dic])
    else Raise AssertionError.
Proof.
  intros Ha. pose proof (lookup_lt_Some _ _ _ Ha) as Hlt.
  unfold accumulate. rewrite list_lookup_total_middle by done.
  rewrite lookup_total_app_l by done.
  rewrite (list_lookup_total_correct _ _ _ Ha).
  assert (∀ d, <[length h := d]> (h ++ [acc]) = h ++ [d]) as Hins.
  { intros d. rewrite insert_app_r_alt by done. by rewrite Nat.sub_diag. }
  assert (length h < length (h ++ [acc])) as Hlen.
  { rewrite length_app. simpl. lia. }
  case_bool_decide as Hsize.
  - apply map_size_empty_iff in Hsize as ->.
    rewrite (for_each_update_at (λ kv, setitem kv.1 kv.2)) by done.
    rewrite list_lookup_total_middle by done.
    rewrite setitem_items. simpl. by rewrite Hins.
  - case_bool_decide as Hdom; simpl; [|done].
    rewrite (for_each_update_at (λ kv, iadd kv.1 kv.2)) by done.
    rewrite list_lookup_total_middle by done.
    rewrite iadd_items by done. simpl. by rewrite Hins.
Qed.

(** The function, given what [for dic in dic_list] leaves in
    [dic_sum]. *)
Lemma average_dic_divide dic_list h acc :
  dic_list ≠ [] →
  for_each (accumulate (length h)) dic_list (h ++ [∅]) = Ok (h ++ [acc]) →
  average_dic dic_list h
  = Ok (length h, h ++ [(λ v, v / INR (length dic_list))%R <$> acc]).
Proof.
  intros Hne Hacc. unfold average_dic.
  rewrite bool_decide_false by (by destruct dic_list).
  unfold new_dict. rewrite Hacc. simpl.
  assert (length h < length (h ++ [acc])) as Hlen.
  { rewrite length_app. simpl. lia. }
  rewrite list_lookup_total_middle by done.
  rewrite (for_each_update_at (λ key, idiv key (length dic_list))) by done.
  rewrite list_lookup_total_middle by done.
  rewrite idiv_keys by (by destruct dic_list). simpl.
  rewrite insert_app_r_alt by done. by rewrite Nat.sub_diag.
Qed.
Lemma average_dic_raise dic_list h e :
  dic_list ≠ [] →
  for_each (accumulate (length h)) dic_list (h ++ [∅]) = Raise e →
  average_dic dic_list h = Raise e.
Proof.
  intros Hne Hacc. unfold average_dic.
  rewrite bool_decide_false by (by destruct dic_list).
  unfold new_dict. by rewrite Hacc.
Qed.
End averaging_loops.

(** ** average_dic: the mean *)

Section averaging_mean.
Import Averaging.
Implicit Types (h : heap) (d acc dic : dict) (a n : nat).
Implicit Types (K : gset string) (dic_list pre rest : list nat).



Lemma dict_add_dom (d1 d2 : dict) :
  dom d1 = dom d2 → dom (dict_add d1 d2) = dom d1.
Proof.
  intros Hdom. apply set_eq. intros k. unfold dict_add.
  rewrite !elem_of_dom, lookup_union_with.
  destruct (d1 !! k) as [x|] eqn:H1, (d2 !! k) as [y|] eqn:H2; simpl; try done.
  assert (k ∈ dom d1) as [? ?]%elem_of_dom; [|congruence].
  rewrite Hdom. apply elem_of_dom. by eexists.
Qed.


End averaging_mean.



Lemma average_dic_nil (h : list (gmap string R)) :
  Averaging.average_dic [] h = Ok (length h, h ++ [∅]).
Proof. reflexivity. Qed.

(** C6 fails on the code: on [[{}, {"acc": 1.0}]] the key set of the second
    dictionary differs from that of the first, yet [average_dic] does not
    raise.  The accumulator is still empty after the first dictionary, so
    the second one is copied like a first one, without the assertion, and
    the result is [{"acc": 0.5}].  The same two dictionaries in the other
    order do fail the assertion. *)
Theorem average_dic_leading_empty :
  let h : list (gmap string R) := [∅; {["acc" := 1%R]}] in
  Averaging.average_dic [0; 1] h = Ok (2, h ++ [{["acc" := (1 / 2)%R]}])
  ∧ dom (h !!! 1) ≠ dom (h !!! 0)
  ∧ Averaging.average_dic [1; 0] h = Raise AssertionError.
Proof.
  intros h. split; [|split].
  - rewrite (average_dic_divide _ _ {["acc" := 1%R]}); [|done|].
    + rewrite map_fmap_singleton. simpl.
      by replace (1 / (1 + 1))%R with (1 / 2)%R by lra.
    + cbn [for_each].
      rewrite (accumulate_heap h ∅ 0 ∅) by done.
      rewrite bool_decide_true by apply map_size_empty.
      cbn [mbind result_bind].
      rewrite (accumulate_heap h ∅ 1 {["acc" := 1%R]}) by done.
      rewrite bool_decide_true by apply map_size_empty. done.
  - simpl. rewrite dom_singleton_L, dom_empty_L. set_solver.
  - apply average_dic_raise; [done|]. cbn [for_each].
    rewrite (accumulate_heap h ∅ 1 {["acc" := 1%R]}) by done.
    rewrite bool_decide_true by apply map_size_empty.
    cbn [mbind result_bind].
    rewrite (accumulate_heap h {["acc" := 1%R]} 0 ∅) by done.
    rewrite bool_decide_false by (by rewrite map_size_singleton).
    rewrite bool_decide_false; [done|].
    rewrite dom_singleton_L, dom_empty_L. set_solver.
Qed.

(** ** main: the checks on the arguments *)

Section main_checks.
Import Main.
Implicit Types (env : Env) (args : Args) (e : exn) (evs : list event).

Lemma output_dir_guard_raises env args :
  output_dir_guard env args = Raise (ValueError OutputDirNotEmpty)
  ↔ output_dir_in_use env args.
Proof.
  unfold output_dir_guard, output_dir_in_use. split.
  - destruct (path env (output_dir args)) as [|entries|]; [done| |done].
    case_bool_decide as Hentries; simpl; [done|].
    destruct (do_train args); [|done].
    destruct (overwrite_output_dir args); [done|]. intros _. by exists entries.
  - intros (entries & -> & Hne & -> & ->).
    by rewrite bool_decide_false by done.
Qed.

Lemma main_guard_raise env args e :
  output_dir_guard env args = Raise e → main env args = ([], Raise e).
Proof. intros Hguard. unfold main. by rewrite Hguard. Qed.

(** [main] from the assertion on, once the guard has let it through. *)
Lemma main_from_assert env args :
  output_dir_guard env args = Ok () →
  ∃ evs n_gpu,
    main env args
    = match logging_flags_assert (preprocess_language args) with
      | Ok _ =>
          (evs ++ (after_assert env n_gpu (preprocess_language args)).1,
           (after_assert env n_gpu (preprocess_language args)).2)
      | Raise e => (evs, Raise e)
      end.
Proof.
  intros Hguard.
  set (debug := truthy (server_ip args) && truthy (server_port args)).
  set (single := bool_decide (local_rank args = (-1)%Z) || no_cuda args).
  exists ((if debug then [AttachDebugger] else [])
          ++ SetVisibleDevices (gpu_id args)
             :: (if single then [] else [InitProcessGroup])
          ++ [ConfigureLogging]),
    (if single then device_count env else 1%Z).
  unfold main, setup_devices. cbv zeta. rewrite Hguard. fold debug single.
  destruct debug, single;
    (destruct (logging_flags_assert _) as [[]|e]; reflexivity).
Qed.

Lemma logging_flags_assert_raises args :
  logging_flags_assert args = Raise AssertionError
  ↔ both_logging_flags_set args.
Proof.
  unfold logging_flags_assert, both_logging_flags_set, py_assert.
  do 2 case_bool_decide; simpl; split; try done; by intros [? ?].
Qed.

Lemma logging_flags_assert_passes args :
  logging_flags_assert args = Ok () ↔ ¬ both_logging_flags_set args.
Proof.
  rewrite <-logging_flags_assert_raises. unfold logging_flags_assert, py_assert.
  destruct (negb _); split; done.
Qed.

Lemma preprocess_language_flags args :
  both_logging_flags_set (preprocess_language args)
  ↔ both_logging_flags_set args.
Proof.
  unfold preprocess_language. destruct (train_language args); [|done].
  by case_bool_decide.
Qed.

(** What comes after the assertion raises neither of the two errors. *)
Lemma after_assert_raises env n_gpu args e :
  (after_assert env n_gpu args).2 = Raise e →
  e = ZeroDivisionError ∨ e = ValueError TaskNotFound.
Proof.
  unfold after_assert, logging_steps_from_samples, floordiv, task_lookup.
  destruct (bool_decide (logging_steps args = (-1)%Z) && _); simpl.
  - case_bool_decide; simpl; [intros [= <-]; by left|].
    case_bool_decide; simpl; [done|]. intros [= <-]. by right.
  - case_bool_decide; simpl; [done|]. intros [= <-]. by right.
Qed.
End main_checks.

Section main_runs.
Import Main.

(** *** Small runs of [main] *)

(** A second training run into the directory of the first one. *)
Example main_second_run :
  let env := {| path := λ _, Directory ["checkpoint-50"%string];
                device_count := 1; processors := ["xnli"%string] |} in
  let args := {| output_dir := "out"; do_train := true;
                 overwrite_output_dir := false;
                 server_ip := EmptyString; server_port := EmptyString;
                 gpu_id := EmptyString; local_rank := -1; no_cuda := false;
                 per_gpu_train_batch_size := 8;
                 gradient_accumulation_steps := 1;
                 logging_steps := 50; logging_steps_in_sample := -1;
                 language := "en"; train_language := None;
                 task_name := "xnli"; seed := 42 |} in
  main env args = ([], Raise (ValueError OutputDirNotEmpty)).
Proof. reflexivity. Qed.

(** [--logging_steps_in_sample 400] next to the default [logging_steps]. *)
Example main_both_flags :
  let env := {| path := λ _, Absent;
                device_count := 1; processors := ["xnli"%string] |} in
  let args := {| output_dir := "out"; do_train := true;
                 overwrite_output_dir := false;
                 server_ip := EmptyString; server_port := EmptyString;
                 gpu_id := EmptyString; local_rank := -1; no_cuda := false;
                 per_gpu_train_batch_size := 8;
                 gradient_accumulation_steps := 1;
                 logging_steps := 50; logging_steps_in_sample := 400;
                 language := "en"; train_language := None;
                 task_name := "xnli"; seed := 42 |} in
  main env args
  = ([SetVisibleDevices EmptyString; ConfigureLogging], Raise AssertionError).
Proof. reflexivity. Qed.

(** [--logging_steps -1 --logging_steps_in_sample 400] on two devices:
    one logging step every [400 // (2 * 8 * 1)] updates. *)
Example main_steps_from_samples :
  let env := {| path := λ _, Absent;
                device_count := 2; processors := ["xnli"%string] |} in
  let args := {| output_dir := "out"; do_train := true;
                 overwrite_output_dir := false;
                 server_ip := EmptyString; server_port := EmptyString;
                 gpu_id := EmptyString; local_rank := -1; no_cuda := false;
                 per_gpu_train_batch_size := 8;
                 gradient_accumulation_steps := 1;
                 logging_steps := -1; logging_steps_in_sample := 400;
                 language := "en"; train_language := None;
                 task_name := "xnli"; seed := 42 |} in
  (main env args).1 = [SetVisibleDevices EmptyString; ConfigureLogging; SetSeed 42]
  ∧ (main env args).2 = Ok (set_logging_steps 25 (set_train_language "en" args)).
Proof. split; reflexivity. Qed.

(** The same on a machine without a GPU: [args.n_gpu] is 0 and the
    division raises. *)
Example main_steps_from_samples_cpu :
  let env := {| path := λ _, Absent;
                device_count := 0; processors := ["xnli"%string] |} in
  let args := {| output_dir := "out"; do_train := true;
                 overwrite_output_dir := false;
                 server_ip := EmptyString; server_port := EmptyString;
                 gpu_id := EmptyString; local_rank := -1; no_cuda := false;
                 per_gpu_train_batch_size := 8;
                 gradient_accumulation_steps := 1;
                 logging_steps := -1; logging_steps_in_sample := 400;
                 language := "en"; train_language := None;
                 task_name := "xnli"; seed := 42 |} in
  main env args
  = ([SetVisibleDevices EmptyString; ConfigureLogging], Raise ZeroDivisionError).
Proof. reflexivity. Qed.

End main_runs.

(** C7: [main] raises the [ValueError] of the output directory exactly
    when the directory exists, is non-empty, [do_train] is set and
    [overwrite_output_dir] is not; nothing else has happened by then. *)
Theorem main_output_dir_error (env : Main.Env) (args : Main.Args) :
  ((Main.main env args).2 = Raise (ValueError OutputDirNotEmpty)
   ↔ Main.output_dir_in_use env args)
  ∧ ((Main.main env args).2 = Raise (ValueError OutputDirNotEmpty) →
     Main.main env args = ([], Raise (ValueError OutputDirNotEmpty))).
Proof.
  assert ((Main.main env args).2 = Raise (ValueError OutputDirNotEmpty)
          → Main.output_dir_guard env args = Raise (ValueError OutputDirNotEmpty))
    as Hguard.
  { destruct (Main.output_dir_guard env args) as [[]|e] eqn:Hg.
    - destruct (main_from_assert env args Hg) as (evs & n_gpu & ->).
      destruct (Main.logging_flags_assert _) as [[]|e] eqn:Hassert; simpl.
      + by intros [|]%after_assert_raises.
      + unfold Main.logging_flags_assert, py_assert in Hassert.
        destruct (negb _); [done|]. by intros [= ->].
    - rewrite (main_guard_raise _ _ _ Hg). simpl. congruence. }
  assert (Main.output_dir_guard env args = Raise (ValueError OutputDirNotEmpty)
          → Main.main env args = ([], Raise (ValueError OutputDirNotEmpty)))
    as Hmain.
  { intros Hg. by rewrite (main_guard_raise _ _ _ Hg). }
  split; [|by intros ?%Hguard%Hmain].
  rewrite <-output_dir_guard_raises. split; [done|].
  intros Hg. by rewrite (Hmain Hg).
Qed.

(** C8: once the guard on the output directory has let [main] through,
    the assertion fails exactly when [logging_steps] and
    [logging_steps_in_sample] both differ from -1, and [main] raises
    [AssertionError] exactly then; otherwise [main] goes on with what
    follows the assertion.  The defaults are 50 and -1. *)
Theorem main_logging_flags_assert (env : Main.Env) (args : Main.Args) :
  Main.output_dir_guard env args = Ok () →
  (Main.logging_flags_assert (Main.preprocess_language args) = Raise AssertionError
   ↔ Main.both_logging_flags_set args)
  ∧ ((Main.main env args).2 = Raise AssertionError
     ↔ Main.both_logging_flags_set args)
  ∧ (¬ Main.both_logging_flags_set args →
     ∃ evs n_gpu,
       Main.main env args
       = (evs ++ (Main.after_assert env n_gpu (Main.preprocess_language args)).1,
          (Main.after_assert env n_gpu (Main.preprocess_language args)).2))
  ∧ (∀ o l t, Main.logging_steps (Main.defaults o l t) = 50%Z
              ∧ Main.logging_steps_in_sample (Main.defaults o l t) = (-1)%Z).
Proof.
  intros Hg. destruct (main_from_assert env args Hg) as (evs & n_gpu & Hmain).
  split; [|split; [|split]].
  - by rewrite logging_flags_assert_raises, preprocess_language_flags.
  - rewrite <-preprocess_language_flags, <-logging_flags_assert_raises, Hmain.
    destruct (Main.logging_flags_assert _) as [[]|e]; simpl;
      [|split; by intros [= ->]].
    split; [|done]. by intros [|]%after_assert_raises.
  - intros Hflags. exists evs, n_gpu. rewrite Hmain.
    rewrite <-preprocess_language_flags in Hflags.
    apply logging_flags_assert_passes in Hflags. by rewrite Hflags.
  - done.
Qed.

Lemma main_logging_flags_assert_witness :
  let env := {| Main.path := λ _, Main.Absent; Main.device_count := 1;
                Main.processors := ["xnli"%string] |} in
  let args := Main.defaults "out" "en" "xnli" in
  (Main.logging_flags_assert (Main.preprocess_language args) = Raise AssertionError
   ↔ Main.both_logging_flags_set args)
  ∧ ((Main.main env args).2 = Raise AssertionError
     ↔ Main.both_logging_flags_set args)
  ∧ (¬ Main.both_logging_flags_set args →
     ∃ evs n_gpu,
       Main.main env args
       = (evs ++ (Main.after_assert env n_gpu (Main.preprocess_language args)).1,
          (Main.after_assert env n_gpu (Main.preprocess_language args)).2))
  ∧ (∀ o l t, Main.logging_steps (Main.defaults o l t) = 50%Z
              ∧ Main.logging_steps_in_sample (Main.defaults o l t) = (-1)%Z).
Proof.
  intros env args. apply (main_logging_flags_assert env args). reflexivity.
Defined.

(** * Further properties *)

(** ** merge_dataset: which task a draw selects *)

Section selection.
Import Sampler.
Implicit Types (probs rest : list R) (r u v : R) (i j : nat).

Lemma walk_mono rest u v :
  (u <= v)%R → walk rest u 0 ≤ walk rest v 0.
Proof.
  revert u v. induction rest as [|p rest IH]; intros u v Huv; cbn [walk]; [lia|].
  destruct (decide (0 <= u)%R) as [Hu|Hu].
  - rewrite !bool_decide_true by lra. rewrite (walk_shift _ _ 1).
    rewrite (walk_shift _ (v - p)%R 1).
    assert (walk rest (u - p) 0 ≤ walk rest (v - p) 0); [|lia].
    apply IH. lra.
  - rewrite (bool_decide_false (0 <= u)%R) by done. lia.
Qed.

End selection.

Section rounds_items.
Import Sampler.
Context {A : Type}.
Implicit Types (dataset_list iterators : list (list A)) (probs : list R).
Implicit Types (d it : list A) (out : list (Z * A)) (random : nat → R).

Lemma py_getitem_ok {X} (l : list X) (i : Z) (x : X) :
  py_getitem l i = Ok x ↔ ∃ j, py_pos l i = Ok j ∧ l !! j = Some x.
Proof.
  unfold py_getitem. destruct (py_pos l i) as [j|e]; simpl.
  - split.
    + destruct (l !! j) eqn:Hj; [|done]. intros [= ->]. by exists j.
    + intros (j' & [= <-] & ->). done.
  - split; [done|]. by intros (j & ? & _).
Qed.

(** What a round yields comes from the dataset that its index names, and
    the invariant is kept. *)
Lemma merge_next_item dataset_list probs iterators r i item iterators' :
  suffixes dataset_list iterators →
  merge_next dataset_list probs iterators r = Ok (i, item, iterators') →
  (∃ d, py_getitem dataset_list i = Ok d ∧ item ∈ d)
  ∧ suffixes dataset_list iterators'.
Proof.
  intros Hsuf Hnext.
  pose proof (merge_next_index _ _ _ _ _ _ _ Hnext) as ->.
  revert Hnext. unfold merge_next. set (i := select probs r).
  destruct (py_getitem iterators i) as [it|] eqn:Hget1; simpl; [|done].
  apply py_getitem_ok in Hget1 as (j & Hpos & Hit).
  pose proof (Forall2_length _ _ _ Hsuf) as Hlen.
  destruct (Forall2_lookup_r _ _ _ _ _ Hsuf Hit) as (d & Hd & m & Hm & ->).
  assert (py_getitem dataset_list i = Ok d) as Hget.
  { apply py_getitem_ok. exists j. split; [|done].
    by rewrite (py_pos_same_length _ iterators). }
  pose proof (lookup_lt_Some _ _ _ Hit) as Hj.
  assert (∀ (its : list (list A)) (x : list A),
            length its = length iterators →
            py_setitem its i x = Ok (<[j := x]> its)) as Hset.
  { intros its x Hits. unfold py_setitem.
    by rewrite (py_pos_same_length _ iterators), Hpos. }
  assert (∀ k x it', drop k d = x :: it' →
            x ∈ d ∧ suffixes dataset_list (<[j := it']> iterators)) as Hstep.
  { intros k x it' Hdrop. split.
    - apply (list_elem_of_lookup_2 _ k).
      rewrite <-(Nat.add_0_r k), <-lookup_drop. by rewrite Hdrop.
    - assert (k < length d) as Hk.
      { apply (f_equal length) in Hdrop. rewrite length_drop in Hdrop.
        simpl in Hdrop. lia. }
      assert (it' = drop (S k) d) as ->.
      { by rewrite <-(Nat.add_1_l k), Nat.add_comm, <-drop_drop, Hdrop. }
      apply suffixes_insert; [done..|lia]. }
  destruct (drop m d) as [|x it'] eqn:Hdrop; simpl.
  - rewrite Hget. simpl. rewrite Hset by done. simpl.
    assert (py_getitem (<[j := iter d]> iterators) i = Ok d) as ->.
    { apply py_getitem_ok. exists j. split.
      - rewrite (py_pos_same_length _ iterators); [done|apply length_insert].
      - by apply list_lookup_insert_eq. }
    simpl. destruct d as [|x d']; simpl; [done|].
    rewrite Hset by apply length_insert. simpl.
    rewrite list_insert_insert_eq. intros [= <- <-].
    destruct (Hstep 0 x d' eq_refl) as [Hx Hsuf']. split; [|done].
    by exists (x :: d').
  - rewrite Hset by done. simpl. intros [= <- <-].
    destruct (Hstep m x it' Hdrop) as [Hx Hsuf']. split; [|done].
    by exists d.
Qed.

Lemma generate_items dataset_list probs random n t iterators :
  suffixes dataset_list iterators →
  Forall (λ p, ∃ d, py_getitem dataset_list p.1 = Ok d ∧ p.2 ∈ d)
    (generate dataset_list probs random n t iterators).1.
Proof.
  revert t iterators. induction n as [|n IH]; intros t its Hsuf; [constructor|].
  rewrite generate_S.
  destruct (merge_next _ _ _ _) as [[[i item] its']|e'] eqn:Hnext; [|constructor].
  destruct (merge_next_item _ _ _ _ _ _ _ Hsuf Hnext) as [Hitem Hsuf'].
  specialize (IH (S t) its' Hsuf').
  destruct (generate _ _ _ n _ _) as [out' e''] eqn:Hgen. simpl in *.
  by constructor.
Qed.
End rounds_items.

(** ** merge_dataset in floating point *)

(** X1: sizes that sum to 0 end [merge_dataset] with a
    [ZeroDivisionError] in the first comprehension, before the first
    pair, whatever the exponent, the datasets and the draws are. *)
Theorem merge_dataset_zero_sizes {A : Type}
    (pow : float → float → float)
    (dataset_list : list (nat → list A)) (dataset_size : list nat)
    (task_ratio : float) (random : nat → float) (n : nat) :
  dataset_size ≠ [] →
  sum_list dataset_size = 0 →
  Sampler64.merge_dataset pow dataset_list dataset_size task_ratio random (S n)
  = ([], Some ZeroDivisionError).
Proof.
  intros Hne Hsum. unfold Sampler64.merge_dataset, Sampler64.merge_probs.
  rewrite Hsum. destruct dataset_size as [|s rest]; [done|].
  assert (s = 0) as ->.
  { simpl in Hsum. unfold sum_list in *. simpl in Hsum. lia. }
  rewrite mapM_result_cons. reflexivity.
Qed.

Lemma merge_dataset_zero_sizes_witness :
  Sampler64.merge_dataset (λ x _, x) [λ _, [10; 11]; λ _ : nat, []] [0; 0] 1
    (λ _, 0.5%float) (S 3)
  = ([], Some ZeroDivisionError).
Proof.
  apply (merge_dataset_zero_sizes (λ x _, x) [λ _, [10; 11]; λ _, []] [0; 0] 1
           (λ _, 0.5%float) 3).
  - done.
  - reflexivity.
Defined.

(** X2: the index that the scan selects lies in [[-1, len(probs))]
    whatever the entries of [probs] and the draw are, numbers or not; it
    is [-1], which Python takes for the last task, exactly when the loop
    is not entered: on an empty [probs] or on a draw that is not
    [>= 0]. *)
Theorem select_float_range (probs : list float) (r : float) :
  (-1 ≤ Sampler64.select probs r < Z.of_nat (length probs))%Z
  ∧ (Sampler64.select probs r = (-1)%Z
     ↔ probs = [] ∨ PrimFloat.leb 0 r = false).
Proof.
  split; [apply select64_bounds|]. split.
  - intros Hsel. destruct (decide (probs = [])) as [|Hne]; [by left|right].
    destruct (PrimFloat.leb 0 r) eqn:Hr; [|done].
    pose proof (select64_nonneg probs r Hne Hr). lia.
  - intros [->|Hr]; [done|]. unfold Sampler64.select.
    destruct probs as [|p probs]; [done|]. cbn [length Sampler64.scan].
    by rewrite Hr.
Qed.

(** ** merge_dataset over exact arithmetic *)

(** X4: on positive sizes a task that is not smaller than another is not
    less likely when the exponent is not negative, and not more likely
    when the exponent is not positive. *)
Theorem larger_task_probability
    (dataset_size : list nat) (task_ratio : R) (probs : list R)
    (i j a b : nat) :
  Forall (λ s, 0 < s) dataset_size →
  Sampler.merge_probs dataset_size task_ratio = Ok probs →
  dataset_size !! i = Some a →
  dataset_size !! j = Some b →
  a ≤ b →
  ∃ pa pb,
    probs !! i = Some pa ∧ probs !! j = Some pb
    ∧ ((0 <= task_ratio)%R → (pa <= pb)%R)
    ∧ ((task_ratio <= 0)%R → (pb <= pa)%R).
Proof.
  intros Hpos Hprobs Ha Hb Hab.
  assert (dataset_size ≠ []) as Hne by (by intros ->).
  rewrite merge_probs_positive in Hprobs by done. injection Hprobs as <-.
  set (c := sum_float (Sampler.tempered dataset_size task_ratio)).
  assert (0 < c)%R as Hc.
  { apply sum_float_pos; [by rewrite tempered_nil_iff|apply tempered_pos]. }
  set (x := Sampler.proportion dataset_size a).
  set (y := Sampler.proportion dataset_size b).
  assert (0 < x <= y)%R as Hxy.
  { split.
    - apply proportion_pos; [done|]. by eapply list_elem_of_lookup_2.
    - unfold x, y, Sampler.proportion, Rdiv. apply Rmult_le_compat_r.
      + left. apply Rinv_0_lt_compat, lt_0_INR.
        eapply sum_list_pos; [done|]. by eapply list_elem_of_lookup_2.
      + by apply le_INR. }
  exists (Rpower x task_ratio / c)%R, (Rpower y task_ratio / c)%R.
  unfold Sampler.renormalize, Sampler.tempered.
  rewrite !list_lookup_fmap, Ha, Hb. simpl. split; [done|]. split; [done|].
  assert (∀ u v, (u <= v)%R → (u / c <= v / c)%R) as Hdiv.
  { intros u v Huv. unfold Rdiv. apply Rmult_le_compat_r; [|done].
    left. by apply Rinv_0_lt_compat. }
  split; intros Hr; apply Hdiv.
  - by apply Rle_Rpower_l.
  - replace task_ratio with (- - task_ratio)%R by lra.
    rewrite !(Rpower_Ropp _ (- task_ratio)).
    apply Rinv_le_contravar; [apply Rpower_pos|].
    apply Rle_Rpower_l; [lra|done].
Qed.

Lemma larger_task_probability_witness :
  ∃ pa pb,
    Sampler.renormalize (Sampler.tempered [1; 3] (1 / 2)) !! 0 = Some pa
    ∧ Sampler.renormalize (Sampler.tempered [1; 3] (1 / 2)) !! 1 = Some pb
    ∧ ((0 <= 1 / 2)%R → (pa <= pb)%R)
    ∧ ((1 / 2 <= 0)%R → (pb <= pa)%R).
Proof.
  apply (larger_task_probability [1; 3] (1 / 2) _ 0 1 1 3).
  - repeat constructor.
  - apply merge_probs_positive. repeat constructor.
  - reflexivity.
  - reflexivity.
  - lia.
Defined.

(** X6: the selected index never decreases when the draw grows. *)
Theorem select_monotone (probs : list R) (u v : R) :
  (u <= v)%R → (Sampler.select probs u ≤ Sampler.select probs v)%Z.
Proof.
  intros Huv. rewrite !select_walk.
  pose proof (walk_mono probs u v Huv). lia.
Qed.

Lemma select_monotone_witness :
  (Sampler.select [(1 / 4)%R; (3 / 4)%R] (1 / 8)
   ≤ Sampler.select [(1 / 4)%R; (3 / 4)%R] (1 / 2))%Z.
Proof. apply select_monotone. lra. Defined.

(** X7: every pair that [merge_dataset] yields is labelled with its own
    dataset: the item is an item of [dataset_list[i]] for the index [i] it
    comes with.  This holds for all sizes and all draws. *)
Theorem yielded_item_of_its_dataset {A : Type}
    (dataset_list : list (list A)) (dataset_size : list nat) (task_ratio : R)
    (random : nat → R) (n : nat) :
  Forall (λ p, ∃ d, py_getitem dataset_list p.1 = Ok d ∧ p.2 ∈ d)
    (Sampler.merge_dataset dataset_list dataset_size task_ratio random n).1.
Proof.
  destruct (Sampler.merge_probs dataset_size task_ratio) as [probs|e] eqn:Hprobs.
  - rewrite (merge_dataset_generate _ _ _ _ _ _ Hprobs).
    apply generate_items, suffixes_iter.
  - unfold Sampler.merge_dataset. rewrite Hprobs. destruct n; constructor.
Qed.

(** X8: without sizes the scan has nothing to walk over and returns -1,
    which Python reads as the last position: every pair carries the index
    -1 and an item of the last dataset. *)
Theorem merge_dataset_no_sizes {A : Type}
    (dataset_list : list (list A)) (task_ratio : R) (random : nat → R)
    (n : nat) :
  Forall (λ p, p.1 = (-1)%Z ∧ ∃ d, last dataset_list = Some d ∧ p.2 ∈ d)
    (Sampler.merge_dataset dataset_list [] task_ratio random n).1.
Proof.
  rewrite (merge_dataset_generate _ [] _ _ _ []) by done.
  pose proof (generate_items dataset_list [] random n 0
                (Sampler.iter <$> dataset_list) (suffixes_iter _)) as Hitems.
  destruct (Sampler.generate _ _ _ _ _ _) as [out e] eqn:Hgen. simpl in *.
  apply generate_indices in Hgen.
  eapply Forall_impl; [apply Forall_and; split; [exact Hgen|exact Hitems]|].
  clear. intros [i item] [[t ->] (d & Hd & Hin)]. simpl in *.
  split; [done|]. exists d. split; [|done].
  apply py_getitem_ok in Hd as (j & Hpos & Hj).
  rewrite last_lookup. revert Hpos. unfold py_pos, Sampler.select. simpl.
  repeat case_bool_decide; intros [= <-]; try lia.
  rewrite <-Hj. f_equal. lia.
Qed.

(** ** average_dic: dictionaries with other keys *)

Section averaging_checks.
Import Averaging.
Implicit Types (h : heap) (d acc dic : dict) (a n : nat).
Implicit Types (dic_list rest : list nat) (ds : list dict).

Lemma for_each_app {S X} (body : S → X → result S) (l1 l2 : list X) (s : S) :
  for_each body (l1 ++ l2) s = s' ← for_each body l1 s; for_each body l2 s'.
Proof.
  revert s. induction l1 as [|x l1 IH]; intros s; [done|].
  cbn [for_each app]. destruct (body s x) as [s1|e]; [|done]. apply IH.
Qed.

(** Empty dictionaries leave the empty accumulator as it is. *)
Lemma accumulate_empties h rest :
  Forall (λ a, h !! a = Some ∅) rest →
  for_each (accumulate (length h)) rest (h ++ [∅]) = Ok (h ++ [∅]).
Proof.
  induction 1 as [|a rest Ha _ IH]; [done|].
  cbn [for_each]. rewrite (accumulate_heap _ _ _ _ Ha).
  by rewrite bool_decide_true by apply map_size_empty.
Qed.

(** Once the accumulator has entries, every dictionary is checked. *)
Lemma accumulate_checked h rest ds acc :
  acc ≠ ∅ →
  Forall2 (λ a d, h !! a = Some d) rest ds →
  for_each (accumulate (length h)) rest (h ++ [acc])
  = if bool_decide (Forall (λ d, dom d = dom acc) ds)
    then Ok (h ++ [foldl dict_add acc ds]) else Raise AssertionError.
Proof.
  intros Hacc Hall. revert acc Hacc.
  induction Hall as [|a d rest ds Ha _ IH]; intros acc Hacc.
  { by rewrite bool_decide_true by constructor. }
  cbn [for_each]. rewrite (accumulate_heap _ _ _ _ Ha).
  rewrite bool_decide_false by (by rewrite map_size_empty_iff).
  case_bool_decide as Hdom.
  - cbn [mbind result_bind foldl].
    assert (dom (dict_add acc d) = dom acc) as Hadd by (by apply dict_add_dom).
    rewrite IH; last first.
    { intros Hempty. rewrite Hempty, dom_empty_L in Hadd.
      symmetry in Hadd. by apply dom_empty_iff_L in Hadd. }
    rewrite Hadd. repeat case_bool_decide; try done.
    + exfalso. match goal with H : ¬ Forall _ (_ :: _) |- _ => apply H end.
      by constructor.
    + exfalso. match goal with H : ¬ Forall _ ds |- _ => apply H end.
      match goal with H : Forall _ (_ :: _) |- _ => by inversion H end.
  - cbn [mbind result_bind]. rewrite bool_decide_false; [done|].
    intros Hall'. inversion Hall'; subst. congruence.
Qed.

(** Every list of dictionaries is some empty ones, and then nothing or a
    dictionary with entries and the others. *)
Lemma leading_empty_split ds :
  ds = replicate (length ds) ∅
  ∨ ∃ m d0 ds', ds = replicate m ∅ ++ d0 :: ds' ∧ d0 ≠ ∅.
Proof.
  induction ds as [|d ds IH]; [by left|].
  destruct (decide (d = ∅)) as [->|Hd].
  - destruct IH as [IH|(m & d0 & ds' & -> & Hd0)].
    + left. simpl. by rewrite <-IH.
    + right. by exists (S m), d0, ds'.
  - right. by exists 0, d, ds.
Qed.

Lemma Forall2_replicate_empty h dic_list m :
  Forall2 (λ a d, h !! a = Some d) dic_list (replicate m ∅) →
  Forall (λ a, h !! a = Some ∅) dic_list.
Proof.
  revert dic_list. induction m as [|m IH]; intros dic_list Hall.
  - apply Forall2_nil_inv_r in Hall as ->. constructor.
  - apply Forall2_cons_inv_r in Hall as (a & rest & Ha & Hrest & ->).
    constructor; [done|by apply IH].
Qed.

(** The run of [for dic in dic_list] on dictionaries that are all empty. *)
Lemma average_dic_all_empty h dic_list m :
  Forall2 (λ a d, h !! a = Some d) dic_list (replicate m ∅) →
  average_dic dic_list h = Ok (length h, h ++ [∅]).
Proof.
  intros Hall%Forall2_replicate_empty.
  destruct (decide (dic_list = [])) as [->|Hne]; [done|].
  rewrite (average_dic_divide _ _ ∅ Hne) by (by apply accumulate_empties).
  by rewrite fmap_empty.
Qed.

(** The run of [for dic in dic_list] up to and after the first dictionary
    with entries. *)
Lemma accumulate_from_first h dic_list m d0 ds :
  Forall2 (λ a d, h !! a = Some d) dic_list (replicate m ∅ ++ d0 :: ds) →
  d0 ≠ ∅ →
  for_each (accumulate (length h)) dic_list (h ++ [∅])
  = if bool_decide (Forall (λ d, dom d = dom d0) ds)
    then Ok (h ++ [foldl dict_add d0 ds]) else Raise AssertionError.
Proof.
  intros Hall Hd0.
  apply Forall2_app_inv_r in Hall as (as1 & as2 & H1 & H2 & ->).
  apply Forall2_cons_inv_r in H2 as (a0 & rest & Ha0 & Hrest & ->).
  rewrite for_each_app.
  rewrite accumulate_empties by (by eapply Forall2_replicate_empty).
  cbn [mbind result_bind for_each]. rewrite (accumulate_heap _ _ _ _ Ha0).
  rewrite bool_decide_true by apply map_size_empty.
  cbn [mbind result_bind]. by apply accumulate_checked.
Qed.

End averaging_checks.

(** X10: [average_dic] raises nothing but [AssertionError], and raises it
    exactly when, after the empty dictionaries that [dic_list] starts
    with, a dictionary with entries is followed by one with another key
    set.  The dictionaries that precede the first one with entries are
    not compared with anything. *)
Theorem average_dic_assertion_iff
    (h : list (gmap string R)) (dic_list : list nat)
    (ds : list (gmap string R)) :
  Forall2 (λ a d, h !! a = Some d) dic_list ds →
  (Averaging.average_dic dic_list h = Raise AssertionError
   ↔ ∃ m d0 rest,
       ds = replicate m ∅ ++ d0 :: rest ∧ d0 ≠ ∅
       ∧ ∃ d, d ∈ rest ∧ dom d ≠ dom d0)
  ∧ (∀ e, Averaging.average_dic dic_list h = Raise e → e = AssertionError).
Proof.
  intros Hall.
  assert (∀ m d0 rest, ds = replicate m ∅ ++ d0 :: rest → d0 ≠ ∅ →
    Averaging.average_dic dic_list h
    = if bool_decide (Forall (λ d, dom d = dom d0) rest)
      then Ok (length h, h ++ [(λ v, v / INR (length dic_list))%R
                               <$> foldl Averaging.dict_add d0 rest])
      else Raise AssertionError) as Hrun.
  { intros m d0 rest -> Hd0.
    assert (dic_list ≠ []) as Hne.
    { intros ->. apply Forall2_nil_inv_l in Hall. by destruct m. }
    pose proof (accumulate_from_first _ _ _ _ _ Hall Hd0) as Hloop.
    case_bool_decide.
    - by apply average_dic_divide.
    - by apply average_dic_raise. }
  destruct (leading_empty_split ds) as [Hempty|(m & d0 & rest & Hds & Hd0)].
  - rewrite Hempty in Hall. rewrite (average_dic_all_empty _ _ _ Hall).
    split; [|done]. split; [done|].
    intros (m & d0 & rest & Hds & Hd0 & _). exfalso.
    assert (d0 ∈ ds) as Hin by (rewrite Hds; set_solver).
    rewrite Hempty in Hin. by apply elem_of_replicate in Hin as [? _].
  - split.
    + split.
      * intros Hraise. exists m, d0, rest. split; [done|]. split; [done|].
        rewrite (Hrun _ _ _ Hds Hd0) in Hraise.
        case_bool_decide as Hdoms; [done|].
        apply not_Forall_Exists in Hdoms; [|apply _].
        apply Exists_exists in Hdoms as (d & Hin & Hd). by exists d.
      * intros (m' & d0' & rest' & Hds' & Hd0' & d & Hin & Hd).
        rewrite (Hrun _ _ _ Hds' Hd0'). rewrite bool_decide_false; [done|].
        intros Hdoms. by eapply Forall_forall in Hdoms.
    + intros e. rewrite (Hrun _ _ _ Hds Hd0). by case_bool_decide; intros [= <-].
Qed.

Lemma average_dic_assertion_iff_witness :
  (Averaging.average_dic [0; 1; 2]
     [∅; {["acc" := 1%R]}; {["f1" := 2%R]}] = Raise AssertionError
   ↔ ∃ m d0 rest,
       [∅; {["acc" := 1%R]}; {["f1" := 2%R]}]
       = replicate m (∅ : gmap string R) ++ d0 :: rest ∧ d0 ≠ ∅
       ∧ ∃ d, d ∈ rest ∧ dom d ≠ dom d0)
  ∧ (∀ e, Averaging.average_dic [0; 1; 2]
            [∅; {["acc" := 1%R]}; {["f1" := 2%R]}] = Raise e →
          e = AssertionError).
Proof.
  apply (average_dic_assertion_iff
           [∅; {["acc" := 1%R]}; {["f1" := 2%R]}] [0; 1; 2]
           [∅; {["acc" := 1%R]}; {["f1" := 2%R]}]).
  repeat constructor.
Defined.



(** ** main: the other ways out *)

Section main_outcomes.
Import Main.
Implicit Types (env : Env) (args : Args) (e : exn) (evs : list event).

Lemma output_dir_guard_cases env args :
  output_dir_guard env args = Ok ()
  ∨ output_dir_guard env args = Raise NotADirectoryError
  ∨ output_dir_guard env args = Raise (ValueError OutputDirNotEmpty).
Proof.
  unfold output_dir_guard.
  destruct (path env (output_dir args)); [by left| |by right; left].
  destruct (negb _); [|by left].
  destruct (do_train args); [|by left].
  destruct (negb _); [by right; right|by left].
Qed.

Lemma output_dir_guard_not_directory env args :
  output_dir_guard env args = Raise NotADirectoryError
  ↔ path env (output_dir args) = NotDirectory.
Proof.
  unfold output_dir_guard.
  destruct (path env (output_dir args)); [done| |done].
  destruct (negb _); [|done]. destruct (do_train args); [|done].
  by destruct (negb _).
Qed.

Lemma preprocess_language_fields args :
  logging_steps (preprocess_language args) = logging_steps args
  ∧ logging_steps_in_sample (preprocess_language args)
    = logging_steps_in_sample args
  ∧ per_gpu_train_batch_size (preprocess_language args)
    = per_gpu_train_batch_size args
  ∧ gradient_accumulation_steps (preprocess_language args)
    = gradient_accumulation_steps args
  ∧ task_name (preprocess_language args) = task_name args
  ∧ seed (preprocess_language args) = seed args.
Proof.
  unfold preprocess_language. destruct (train_language args); [|done].
  by case_bool_decide.
Qed.

(** What follows the assertion, case by case. *)
Lemma after_assert_cases env n_gpu args :
  after_assert env n_gpu args
  = if bool_decide (logging_steps args = (-1)%Z)
       && negb (bool_decide (logging_steps_in_sample args = (-1)%Z))
    then
      if bool_decide ((n_gpu * per_gpu_train_batch_size args
                       * gradient_accumulation_steps args)%Z = 0%Z)
      then ([], Raise ZeroDivisionError)
      else
        ([SetSeed (seed args)],
         if bool_decide (task_name args ∈ processors env)
         then Ok (set_logging_steps
                    (logging_steps_in_sample args
                     / (n_gpu * per_gpu_train_batch_size args
                        * gradient_accumulation_steps args))%Z args)
         else Raise (ValueError TaskNotFound))
    else
      ([SetSeed (seed args)],
       if bool_decide (task_name args ∈ processors env)
       then Ok args else Raise (ValueError TaskNotFound)).
Proof.
  unfold after_assert, logging_steps_from_samples, floordiv, task_lookup.
  destruct (bool_decide (logging_steps args = (-1)%Z) && _); simpl.
  - case_bool_decide; [reflexivity|]. unfold run_bind. simpl.
    case_bool_decide; reflexivity.
  - unfold run_bind. simpl. case_bool_decide; reflexivity.
Qed.

(** [main] from the assertion on, with the device count that it uses. *)
Lemma main_after_guard env args :
  output_dir_guard env args = Ok () →
  ∃ evs,
    (∀ s, SetSeed s ∉ evs)
    ∧ main env args
      = match logging_flags_assert (preprocess_language args) with
        | Ok _ =>
            (evs ++ (after_assert env
                       (if bool_decide (local_rank args = (-1)%Z)
                           || no_cuda args
                        then device_count env else 1%Z)
                       (preprocess_language args)).1,
             (after_assert env
                (if bool_decide (local_rank args = (-1)%Z) || no_cuda args
                 then device_count env else 1%Z)
                (preprocess_language args)).2)
        | Raise e => (evs, Raise e)
        end.
Proof.
  intros Hguard.
  set (debug := truthy (server_ip args) && truthy (server_port args)).
  set (single := bool_decide (local_rank args = (-1)%Z) || no_cuda args).
  exists ((if debug then [AttachDebugger] else [])
          ++ SetVisibleDevices (gpu_id args)
             :: (if single then [] else [InitProcessGroup])
          ++ [ConfigureLogging]).
  split.
  { intros s.
    destruct debug, single; simpl; intros Hin;
      repeat (apply elem_of_cons in Hin as [Hin|Hin]; [done|]);
      by apply elem_of_nil in Hin. }
  unfold main, setup_devices. cbv zeta. rewrite Hguard. fold debug single.
  destruct debug, single;
    (destruct (logging_flags_assert _) as [[]|e]; reflexivity).
Qed.

(** The ways out of [main] once the guard has let it through. *)
Lemma main_outcome env args :
  output_dir_guard env args = Ok () →
  ∃ evs,
    (∀ s, SetSeed s ∉ evs)
    ∧ main env args
      = if decide (both_logging_flags_set args) then (evs, Raise AssertionError)
        else if decide (logging_steps args = (-1)%Z
                        ∧ logging_steps_in_sample args ≠ (-1)%Z) then
          if decide (((if bool_decide (local_rank args = (-1)%Z)
                          || no_cuda args
                       then device_count env else 1)
                      * per_gpu_train_batch_size args
                      * gradient_accumulation_steps args)%Z = 0%Z)
          then (evs, Raise ZeroDivisionError)
          else
            (evs ++ [SetSeed (seed args)],
             if decide (task_name args ∈ processors env)
             then Ok (set_logging_steps
                        (logging_steps_in_sample args
                         / ((if bool_decide (local_rank args = (-1)%Z)
                                || no_cuda args
                             then device_count env else 1)
                            * per_gpu_train_batch_size args
                            * gradient_accumulation_steps args))%Z
                        (preprocess_language args))
             else Raise (ValueError TaskNotFound))
        else
          (evs ++ [SetSeed (seed args)],
           if decide (task_name args ∈ processors env)
           then Ok (preprocess_language args)
           else Raise (ValueError TaskNotFound)).
Proof.
  intros Hguard.
  destruct (main_after_guard env args Hguard) as (evs & Hevs & ->).
  exists evs. split; [done|].
  destruct (preprocess_language_fields args) as (Hl & Hs & Hb & Hg & Ht & Hseed).
  set (n_gpu := if _ || _ then _ else _).
  destruct (decide (both_logging_flags_set args)) as [Hboth|Hboth].
  { rewrite (proj2 (logging_flags_assert_raises _)); [done|].
    by apply preprocess_language_flags. }
  rewrite (proj2 (logging_flags_assert_passes _))
    by (by rewrite preprocess_language_flags).
  rewrite after_assert_cases, Hl, Hs, Hb, Hg, Ht, Hseed.
  destruct (decide (logging_steps args = (-1)%Z
                    ∧ logging_steps_in_sample args ≠ (-1)%Z)) as [[H1 H2]|Hn].
  - rewrite (bool_decide_true _ H1), (bool_decide_false _ H2). simpl.
    destruct (decide _) as [Hz|Hz].
    + rewrite (bool_decide_true _ Hz). simpl. by rewrite (right_id_L [] (++)).
    + rewrite (bool_decide_false _ Hz). simpl. f_equal.
      destruct (decide _) as [Hin|Hin].
      * by rewrite (bool_decide_true _ Hin).
      * by rewrite (bool_decide_false _ Hin).
  - assert (bool_decide (logging_steps args = (-1)%Z)
            && negb (bool_decide (logging_steps_in_sample args = (-1)%Z))
            = false) as ->.
    { repeat case_bool_decide; simpl; try done. by destruct Hn. }
    simpl. f_equal. destruct (decide _) as [Hin|Hin].
    + by rewrite (bool_decide_true _ Hin).
    + by rewrite (bool_decide_false _ Hin).
Qed.
End main_outcomes.

(** X12: up to the task lookup (lines 671-734, what [Main.main] embeds:
    all that [main] does before it loads a model) [main] raises
    [ZeroDivisionError] exactly when the guard on the output directory
    lets it through, the logging period is given in samples
    ([logging_steps] is -1 and [logging_steps_in_sample] is not) and the
    total batch size [n_gpu * per_gpu_train_batch_size *
    gradient_accumulation_steps] is 0, as it is on a machine without a
    GPU; the seed has not been set then.  [train], which [main] calls
    later, divides on its own account (X19). *)
Theorem main_zero_division (env : Main.Env) (args : Main.Args) :
  ((Main.main env args).2 = Raise ZeroDivisionError
   ↔ Main.output_dir_guard env args = Ok ()
     ∧ Main.logging_steps args = (-1)%Z
     ∧ Main.logging_steps_in_sample args ≠ (-1)%Z
     ∧ ((if bool_decide (Main.local_rank args = (-1)%Z) || Main.no_cuda args
         then Main.device_count env else 1)
        * Main.per_gpu_train_batch_size args
        * Main.gradient_accumulation_steps args = 0)%Z)
  ∧ ((Main.main env args).2 = Raise ZeroDivisionError →
     ∀ s, Main.SetSeed s ∉ (Main.main env args).1).
Proof.
  destruct (output_dir_guard_cases env args) as [Hguard|[Hguard|Hguard]].
  2,3: rewrite (main_guard_raise _ _ _ Hguard), Hguard; simpl;
       (split; [split; [done|by intros [? _]]|done]).
  destruct (main_outcome env args Hguard) as (evs & Hevs & ->).
  unfold Main.both_logging_flags_set.
  repeat destruct (decide _); simpl;
    (split; [split; [try done; intros _; tauto
                    |try done; intros (_ & ? & ? & ?); try done; tauto]|]);
    try done.
Qed.


(** X14: an output directory that exists but is no directory makes
    [os.listdir] raise: [main] ends with [NotADirectoryError] exactly
    then, whatever [do_train] and [overwrite_output_dir] say, and before
    it has done anything else. *)
Theorem main_not_a_directory (env : Main.Env) (args : Main.Args) :
  ((Main.main env args).2 = Raise NotADirectoryError
   ↔ Main.path env (Main.output_dir args) = Main.NotDirectory)
  ∧ ((Main.main env args).2 = Raise NotADirectoryError →
     (Main.main env args).1 = []).
Proof.
  rewrite <-output_dir_guard_not_directory.
  destruct (output_dir_guard_cases env args) as [Hguard|[Hguard|Hguard]].
  2,3: by rewrite (main_guard_raise _ _ _ Hguard), Hguard.
  destruct (main_outcome env args Hguard) as (evs & Hevs & ->).
  rewrite Hguard.
  repeat destruct (decide _); simpl; by split.
Qed.

(** X15: when [main] gets through, the arguments it goes on with have a
    train language (the evaluation language where none or [all] was
    given), a logging period that is [logging_steps], or
    [logging_steps_in_sample // total_batch_size] where the period was
    given in samples, and a task that [processors] knows; [set_seed] was
    the last thing done. *)
Theorem main_returns
    (env : Main.Env) (args args' : Main.Args) :
  (Main.main env args).2 = Ok args' →
  Main.train_language args'
  = Some (match Main.train_language args with
          | None => Main.language args
          | Some l => if bool_decide (l = "all"%string)
                      then Main.language args else l
          end)
  ∧ Main.logging_steps args'
    = (if bool_decide (Main.logging_steps args = (-1)%Z)
       then if bool_decide (Main.logging_steps_in_sample args = (-1)%Z)
            then (-1)%Z
            else (Main.logging_steps_in_sample args
                  / ((if bool_decide (Main.local_rank args = (-1)%Z)
                         || Main.no_cuda args
                      then Main.device_count env else 1)
                     * Main.per_gpu_train_batch_size args
                     * Main.gradient_accumulation_steps args))%Z
       else Main.logging_steps args)
  ∧ Main.logging_steps_in_sample args' = Main.logging_steps_in_sample args
  ∧ Main.task_name args' = Main.task_name args
  ∧ Main.task_name args ∈ Main.processors env
  ∧ last (Main.main env args).1 = Some (Main.SetSeed (Main.seed args)).
Proof.
  destruct (output_dir_guard_cases env args) as [Hguard|[Hguard|Hguard]].
  2,3: by rewrite (main_guard_raise _ _ _ Hguard).
  destruct (main_outcome env args Hguard) as (evs & Hevs & ->).
  destruct (preprocess_language_fields args) as (Hl & Hs & Hb & Hg & Ht & Hseed).
  assert (Main.train_language (Main.preprocess_language args)
          = Some (match Main.train_language args with
                  | None => Main.language args
                  | Some l => if bool_decide (l = "all"%string)
                              then Main.language args else l
                  end)) as Hlang.
  { unfold Main.preprocess_language.
    destruct (Main.train_language args) as [l|] eqn:Horig; [|done].
    by case_bool_decide. }
  unfold Main.both_logging_flags_set.
  repeat destruct (decide _); simpl; try done; intros [= <-]; simpl;
    rewrite ?Hlang, ?Hl, ?Hs, ?Ht, last_snoc;
    repeat case_bool_decide; try done; tauto.
Qed.

Lemma main_returns_witness :
  let env := {| Main.path := λ _, Main.Absent; Main.device_count := 2;
                Main.processors := ["xnli"%string] |} in
  let args := {| Main.output_dir := "out"; Main.do_train := true;
                 Main.overwrite_output_dir := false;
                 Main.server_ip := EmptyString;
                 Main.server_port := EmptyString;
                 Main.gpu_id := EmptyString; Main.local_rank := -1;
                 Main.no_cuda := false;
                 Main.per_gpu_train_batch_size := 8;
                 Main.gradient_accumulation_steps := 1;
                 Main.logging_steps := -1;
                 Main.logging_steps_in_sample := 400;
                 Main.language := "en"; Main.train_language := None;
                 Main.task_name := "xnli"; Main.seed := 42 |} in
  let args' := Main.set_logging_steps 25 (Main.set_train_language "en" args) in
  Main.train_language args' = Some "en"%string
  ∧ Main.logging_steps args' = 25%Z
  ∧ Main.logging_steps_in_sample args' = 400%Z
  ∧ Main.task_name args' = "xnli"%string
  ∧ "xnli"%string ∈ ["xnli"%string]
  ∧ last (Main.main env args).1 = Some (Main.SetSeed 42).
Proof.
  intros env args args'.
  apply (main_returns env args args'). reflexivity.
Defined.

(** ** train: the loop *)

Section train_loop.
Import Train.
Context {A : Type}.
Variable args : Args.
Variable loss : nat → Z → A → R.
Implicit Types (st : state) (batch : Z * A) (batches : list (Z * A)) (t : nat).

Local Abbreviation gas := (Main.gradient_accumulation_steps (main_args args)).
Local Abbreviation lsteps := (Main.logging_steps (main_args args)).

Lemma updates_app (evs1 evs2 : list event) :
  updates (evs1 ++ evs2) = updates evs1 + updates evs2.
Proof. unfold updates. by rewrite omap_app, length_app. Qed.

Lemma logged_app (evs1 evs2 : list event) :
  logged (evs1 ++ evs2) = logged evs1 ++ logged evs2.
Proof. unfold logged. by rewrite omap_app. Qed.

(** One round of the loop, for a positive number of accumulation steps. *)
Lemma body_spec t st batch :
  (0 < gas)%Z →
  ∃ st',
    body args loss t st batch
    = Ok (st', bool_decide (past_limit args (global_step st')))
    ∧ step st' = (step st + 1)%Z
    ∧ global_step st'
      = (if bool_decide ((step st + 1) mod gas = 0)%Z
         then global_step st + 1 else global_step st)%Z
    ∧ tr_loss st' = (tr_loss st + loss t batch.1 batch.2 / IZR gas)%R
    ∧ updates (events st')
      = (updates (events st)
         + if bool_decide ((step st + 1) mod gas = 0)%Z then 1 else 0)
    ∧ logged (events st')
      = logged (events st)
        ++ (if bool_decide ((step st + 1) mod gas = 0)%Z
               && first_process args
               && bool_decide (0 < lsteps)%Z
               && bool_decide ((global_step st + 1) mod lsteps = 0)%Z
            then [(global_step st + 1)%Z] else []).
Proof.
  intros Hg. unfold body.
  set (l := if bool_decide (1 < gas)%Z then _ else _).
  assert (l = (loss t batch.1 batch.2 / IZR gas)%R) as ->.
  { unfold l. case_bool_decide; [done|].
    assert (gas = 1%Z) as -> by lia. field. }
  set (x := (loss t batch.1 batch.2 / IZR gas)%R).
  assert (∀ st1,
    (if bool_decide (0 < max_steps args)%Z
        && bool_decide (max_steps args < global_step st1)%Z
     then Ok (st1, true)
     else if bool_decide (0 < break_steps args)%Z
             && bool_decide (break_steps args < global_step st1)%Z
          then Ok (st1, true)
          else Ok (st1, false))
    = Ok (st1, bool_decide (past_limit args (global_step st1)))) as Hstop.
  { intros st1. unfold past_limit.
    repeat case_bool_decide; simpl; try done; exfalso; tauto. }
  unfold py_mod. rewrite (bool_decide_false (gas = 0%Z)) by lia.
  cbn [mbind result_bind add_loss step].
  destruct (decide ((step st + 1) mod gas = 0)%Z) as [Hmod|Hmod];
    [rewrite !(bool_decide_true _ Hmod)|rewrite !(bool_decide_false _ Hmod)];
    cbn [andb]; last first.
  { cbn [mbind result_bind]. rewrite Hstop. eexists. split; [reflexivity|].
    simpl. by rewrite Nat.add_0_r, (right_id_L [] (++)). }
  destruct (first_process args); cbn [andb]; last first.
  { cbn [mbind result_bind]. rewrite Hstop. eexists. split; [reflexivity|].
    simpl. by rewrite updates_app, logged_app. }
  destruct (decide (0 < lsteps)%Z) as [Hls|Hls];
    [rewrite !(bool_decide_true _ Hls)|rewrite !(bool_decide_false _ Hls)];
    cbn [andb]; last first.
  { cbn [mbind result_bind]. rewrite Hstop. eexists. split; [reflexivity|].
    simpl. by rewrite updates_app, logged_app. }
  rewrite (bool_decide_false (lsteps = 0%Z)) by lia.
  cbn [mbind result_bind update add_loss global_step].
  destruct (decide ((global_step st + 1) mod lsteps = 0)%Z) as [Hlog|Hlog];
    [rewrite !(bool_decide_true _ Hlog)|rewrite !(bool_decide_false _ Hlog)];
    last first.
  { cbn [mbind result_bind]. rewrite Hstop. eexists. split; [reflexivity|].
    simpl. by rewrite updates_app, logged_app. }
  unfold logging. rewrite truediv_ok by (apply not_0_IZR; lia).
  cbn [mbind result_bind]. rewrite Hstop. eexists. split; [reflexivity|].
  simpl. rewrite !updates_app, !logged_app. simpl.
  by rewrite Nat.add_0_r, <-(assoc_L (++)).
Qed.

(** The counters after [k] rounds: [step] is the number of rounds, and
    [global_step] the number of times that [step + 1] was a multiple of
    the accumulation steps. *)
Lemma div_succ (s g : Z) :
  (0 < g)%Z →
  ((s + 1) / g
   = if bool_decide ((s + 1) mod g = 0) then s / g + 1 else s / g)%Z.
Proof.
  intros Hg. case_bool_decide as Hmod.
  - apply Z.mod_divide in Hmod as [q Hq]; [|lia].
    assert (s = q * g - 1)%Z as -> by lia.
    replace (q * g - 1 + 1)%Z with (q * g)%Z by lia.
    rewrite Z.div_mul by lia.
    replace (q * g - 1)%Z with ((q - 1) * g + (g - 1))%Z by lia.
    rewrite Z.div_add_l by lia. rewrite Z.div_small by lia. lia.
  - pose proof (Z.div_mod s g ltac:(lia)) as Hs.
    pose proof (Z.mod_pos_bound s g Hg) as Hb.
    assert (s mod g + 1 < g)%Z as Hlt.
    { destruct (decide (s mod g + 1 = g)%Z) as [Heq|]; [|lia]. exfalso.
      apply Hmod. replace (s + 1)%Z with ((s / g + 1) * g)%Z by lia.
      apply Z.mod_mul. lia. }
    symmetry. apply (Z.div_unique_pos _ _ _ (s mod g + 1)); lia.
Qed.

Lemma losses_cons t batch batches :
  losses loss t (batch :: batches)
  = loss t batch.1 batch.2 :: losses loss (S t) batches.
Proof.
  unfold losses. rewrite imap_cons, Nat.add_0_r. f_equal.
  apply imap_ext. intros j x _. simpl. f_equal. lia.
Qed.

Lemma past_limit_mono (g1 g2 : Z) :
  (g1 ≤ g2)%Z → past_limit args g1 → past_limit args g2.
Proof. unfold past_limit. lia. Qed.

(** The multiples of [m] among the [n] integers that follow [g]. *)
Lemma multiples_app (m g : Z) (n1 n2 : Z) :
  (0 ≤ n1)%Z → (0 ≤ n2)%Z →
  filter (λ x, x mod m = 0)%Z (seqZ (g + 1) (n1 + n2))
  = filter (λ x, x mod m = 0)%Z (seqZ (g + 1) n1)
    ++ filter (λ x, x mod m = 0)%Z (seqZ (g + n1 + 1) n2).
Proof.
  intros H1 H2. rewrite seqZ_app, filter_app by done.
  do 3 f_equal. lia.
Qed.

(** The loop, for a positive number of accumulation steps, from a state
    in which no limit is passed: it goes [k] rounds, and stops at the
    first round after which a limit is passed. *)
Lemma loop_spec t batches st :
  (0 < gas)%Z →
  global_step st = (step st / gas)%Z →
  ¬ past_limit args (global_step st) →
  ∃ k st' stop,
    loop args loss t batches st = Ok (st', stop)
    ∧ k ≤ length batches
    ∧ step st' = (step st + Z.of_nat k)%Z
    ∧ global_step st' = (step st' / gas)%Z
    ∧ (global_step st ≤ global_step st')%Z
    ∧ tr_loss st'
      = (tr_loss st + sum_float (losses loss t (take k batches)) / IZR gas)%R
    ∧ updates (events st')
      = updates (events st) + Z.to_nat (global_step st' - global_step st)
    ∧ logged (events st')
      = logged (events st)
        ++ (if first_process args && bool_decide (0 < lsteps)%Z
            then filter (λ g, g mod lsteps = 0)%Z
                   (seqZ (global_step st + 1)
                      (global_step st' - global_step st))
            else [])
    ∧ (if stop : bool
       then 0 < k ∧ past_limit args (global_step st')
            ∧ ¬ past_limit args ((step st + Z.of_nat k - 1) / gas)
       else k = length batches ∧ ¬ past_limit args (global_step st')).
Proof.
  intros Hg. revert t st.
  induction batches as [|batch batches IH]; intros t st Hgs Hlimit.
  { exists 0, st, false. cbn [loop take length]. split; [done|].
    split; [done|]. split; [lia|]. split; [done|]. split; [lia|]. split.
    { unfold losses. simpl. rewrite sum_float_nil. unfold Rdiv. lra. }
    split; [by rewrite Z.sub_diag, Nat.add_0_r|]. split; [|done].
    rewrite Z.sub_diag, seqZ_nil by lia.
    by destruct (_ && _); rewrite ?filter_nil, (right_id_L [] (++)). }
  destruct (body_spec t st batch Hg)
    as (st1 & Hbody & Hstep & Hglobal & Hloss & Hupd & Hlog).
  assert (global_step st1 = (step st1 / gas)%Z) as Hgs1.
  { rewrite Hglobal, Hstep, div_succ, Hgs by done. done. }
  assert (global_step st1 - global_step st
          = if bool_decide ((step st + 1) mod gas = 0)%Z then 1 else 0)%Z
    as Hdiff.
  { rewrite Hglobal. case_bool_decide; lia. }
  assert (global_step st ≤ global_step st1)%Z as Hle1.
  { rewrite Hglobal. case_bool_decide; lia. }
  assert (logged (events st1)
          = logged (events st)
            ++ (if first_process args && bool_decide (0 < lsteps)%Z
                then filter (λ g, g mod lsteps = 0)%Z
                       (seqZ (global_step st + 1)
                          (global_step st1 - global_step st))
                else [])) as Hlog1.
  { rewrite Hlog, Hdiff. f_equal.
    case_bool_decide as Hmod; cbn [andb]; last first.
    { rewrite seqZ_nil by lia. by destruct (_ && _). }
    destruct (first_process args); cbn [andb]; [|done].
    case_bool_decide; cbn [andb]; [|done].
    rewrite seqZ_cons, seqZ_nil by lia. rewrite filter_cons, filter_nil.
    case_bool_decide; by case_decide. }
  assert (updates (events st1)
          = updates (events st)
            + Z.to_nat (global_step st1 - global_step st)) as Hupd1.
  { rewrite Hupd, Hdiff.
    destruct (decide ((step st + 1) mod gas = 0)%Z) as [Hmod|Hmod];
      [rewrite !(bool_decide_true _ Hmod)|rewrite !(bool_decide_false _ Hmod)];
      simpl; lia. }
  cbn [loop]. rewrite Hbody. cbn [mbind result_bind].
  destruct (decide (past_limit args (global_step st1))) as [Hpast|Hpast];
    [rewrite (bool_decide_true _ Hpast)|rewrite (bool_decide_false _ Hpast)].
  - exists 1, st1, true. split; [done|]. split; [simpl; lia|].
    split; [by rewrite Hstep|]. split; [done|]. split; [lia|].
    split.
    { rewrite Hloss. cbn [take]. rewrite losses_cons.
      unfold losses. simpl. rewrite sum_float_cons, sum_float_nil.
      unfold Rdiv. lra. }
    split; [done|]. split; [done|]. split; [lia|]. split; [done|].
    replace (step st + Z.of_nat 1 - 1)%Z with (step st) by lia.
    by rewrite <-Hgs.
  - destruct (IH (S t) st1 Hgs1 Hpast)
      as (k & st' & stop & Hloop & Hk & Hstep' & Hgs' & Hle & Hloss'
          & Hupd' & Hlog' & Hstop).
    exists (S k), st', stop. split; [done|]. split; [simpl; lia|].
    split; [lia|]. split; [done|]. split; [lia|]. split.
    { rewrite Hloss', Hloss. cbn [take]. rewrite losses_cons, sum_float_cons.
      unfold Rdiv. lra. }
    split; [lia|]. split.
    { rewrite Hlog', Hlog1, <-(assoc_L (++)). f_equal.
      destruct (_ && _); [|done].
      replace (global_step st' - global_step st)%Z
        with ((global_step st1 - global_step st)
              + (global_step st' - global_step st1))%Z by lia.
      rewrite multiples_app by lia. do 3 f_equal. lia. }
    destruct stop.
    + destruct Hstop as (Hk0 & Hp & Hnp). split; [lia|]. split; [done|].
      by replace (step st + Z.of_nat (S k) - 1)%Z
        with (step st1 + Z.of_nat k - 1)%Z by lia.
    + destruct Hstop as [-> Hnp]. by split.
Qed.

Lemma init_no_limit (t_total : R) : ¬ past_limit args (global_step (init t_total)).
Proof. unfold past_limit. simpl. lia. Qed.

(** The loop on at least [(L + 1) * gas] pairs, where [L] is the last
    global step that passes no limit. *)
Lemma loop_limit (L : Z) t batches st :
  (0 < gas)%Z →
  step st = 0%Z → global_step st = 0%Z →
  ¬ past_limit args L → past_limit args (L + 1) →
  ((L + 1) * gas ≤ Z.of_nat (length batches))%Z →
  ∃ st',
    loop args loss t batches st = Ok (st', true)
    ∧ step st' = ((L + 1) * gas)%Z
    ∧ global_step st' = (L + 1)%Z
    ∧ tr_loss st'
      = (tr_loss st
         + sum_float
             (losses loss t (take (Z.to_nat ((L + 1) * gas)) batches))
           / IZR gas)%R
    ∧ updates (events st') = updates (events st) + Z.to_nat (L + 1)
    ∧ logged (events st')
      = logged (events st)
        ++ (if first_process args && bool_decide (0 < lsteps)%Z
            then filter (λ g, g mod lsteps = 0)%Z (seqZ 1 (L + 1))
            else []).
Proof.
  intros Hg Hstep Hglobal HL HL1 Hlen.
  assert (0 ≤ L)%Z as HL0.
  { destruct (decide (0 ≤ L)%Z); [done|]. exfalso.
    revert HL1. unfold past_limit. lia. }
  destruct (loop_spec t batches st Hg)
    as (k & st' & stop & Hloop & Hk & Hstep' & Hgs' & Hle & Hloss
        & Hupd & Hlog & Hstop).
  { by rewrite Hglobal, Hstep, Z.div_0_l by lia. }
  { rewrite Hglobal. intros Hp. apply HL. by eapply past_limit_mono. }
  rewrite Hstep, Z.add_0_l in Hstep'. rewrite Hstep' in Hgs'.
  rewrite Hglobal, Z.sub_0_r in Hupd, Hlog. rewrite Z.add_0_l in Hlog.
  assert (Z.of_nat k = (L + 1) * gas)%Z as Hkeq; last first.
  { assert (global_step st' = (L + 1)%Z) as HgsL.
    { rewrite Hgs', Hkeq. apply Z.div_mul. lia. }
    destruct stop; last first.
    { destruct Hstop as [_ Hnp]. by rewrite HgsL in Hnp. }
    exists st'. rewrite <-Hkeq, Nat2Z.id, <-HgsL. by rewrite Hstep'. }
  destruct stop.
  - destruct Hstop as (Hk0 & Hp & Hnp).
    rewrite Hstep, Z.add_0_l in Hnp.
    assert (L < global_step st')%Z as Hlt.
    { destruct (decide (L < global_step st')%Z); [done|]. exfalso.
      apply HL. eapply past_limit_mono; [|exact Hp]. lia. }
    assert ((Z.of_nat k - 1) / gas < L + 1)%Z as Hlt'.
    { destruct (decide ((Z.of_nat k - 1) / gas < L + 1)%Z); [done|]. exfalso.
      apply Hnp. eapply past_limit_mono; [|exact HL1]. lia. }
    rewrite Hgs' in Hlt. clear -Hg Hlt Hlt'.
    Z.to_euclidean_division_equations. nia.
  - destruct Hstop as [-> Hnp]. exfalso. apply Hnp.
    eapply past_limit_mono; [|exact HL1].
    rewrite Hgs'. apply Z.div_le_lower_bound; lia.
Qed.

(** Without a positive limit the loop goes through all the pairs. *)
Lemma loop_no_limit t batches st :
  (0 < gas)%Z →
  global_step st = (step st / gas)%Z →
  (max_steps args ≤ 0)%Z → (break_steps args ≤ 0)%Z →
  ∃ st',
    loop args loss t batches st = Ok (st', false)
    ∧ step st' = (step st + Z.of_nat (length batches))%Z
    ∧ global_step st' = (step st' / gas)%Z.
Proof.
  intros Hg Hgs Hmax Hbreak.
  assert (∀ gs, ¬ past_limit args gs) as Hnever.
  { intros gs. unfold past_limit. lia. }
  destruct (loop_spec t batches st Hg Hgs (Hnever _))
    as (k & st' & stop & Hloop & Hk & Hstep' & Hgs' & Hle & Hloss
        & Hupd & Hlog & Hstop).
  destruct stop.
  - destruct Hstop as (_ & Hp & _). by apply Hnever in Hp.
  - destruct Hstop as [-> _]. by exists st'.
Qed.

End train_loop.

Section loop_runs.
Import Train.
Context {A : Type}.
Implicit Types (args : Args) (loss : nat → Z → A → R).

(** A loop that has stopped does not see the batches that follow. *)
Lemma loop_stopped args loss t (batches more : list (Z * A)) st st' :
  loop args loss t batches st = Ok (st', true) →
  loop args loss t (batches ++ more) st = Ok (st', true).
Proof.
  revert t st. induction batches as [|batch batches IH]; intros t st; [done|].
  cbn [loop app]. destruct (body args loss t st batch) as [[st1 stop]|e]; [|done].
  cbn [mbind result_bind]. destruct stop; [done|]. apply IH.
Qed.
End loop_runs.

(** X16: with the default limits ([max_steps] and [break_steps] not
    positive) the loop over the batches never reaches a [break]: on any
    [n] pairs of the generator it goes through all of them, with
    [step = n] and one update for every [gradient_accumulation_steps]
    batches. *)
Theorem loop_never_breaks {A : Type}
    (args : Train.Args) (loss : nat → Z → A → R)
    (batches : list (Z * A)) (t_total : R) :
  (0 < Main.gradient_accumulation_steps (Train.main_args args))%Z →
  (Train.max_steps args ≤ 0)%Z →
  (Train.break_steps args ≤ 0)%Z →
  ∃ st,
    Train.loop args loss 0 batches (Train.init t_total) = Ok (st, false)
    ∧ Train.step st = Z.of_nat (length batches)
    ∧ Train.global_step st
      = (Z.of_nat (length batches)
         / Main.gradient_accumulation_steps (Train.main_args args))%Z.
Proof.
  intros Hg Hmax Hbreak.
  destruct (loop_no_limit args loss 0 batches (Train.init t_total) Hg)
    as (st & Hloop & Hstep & Hglobal); [|done..|].
  { simpl. by rewrite Z.div_0_l by lia. }
  exists st. split; [done|]. simpl in Hstep. rewrite Hglobal, Hstep.
  by rewrite Z.add_0_l.
Qed.

Lemma loop_never_breaks_witness :
  ∃ st,
    Train.loop
      {| Train.main_args := Main.defaults "out" "en" "xnli";
         Train.max_steps := -1; Train.break_steps := -1;
         Train.num_train_epochs := 3; Train.logging_each_epoch := false;
         Train.task_ratio := 1 |}
      (λ _ _ _, 1%R) 0 [(0%Z, 10); (1%Z, 20); (0%Z, 11)] (Train.init 0)
    = Ok (st, false)
    ∧ Train.step st = Z.of_nat (length [(0%Z, 10); (1%Z, 20); (0%Z, 11)])
    ∧ Train.global_step st
      = (Z.of_nat (length [(0%Z, 10); (1%Z, 20); (0%Z, 11)]) / 1)%Z.
Proof.
  apply (loop_never_breaks
           {| Train.main_args := Main.defaults "out" "en" "xnli";
              Train.max_steps := -1; Train.break_steps := -1;
              Train.num_train_epochs := 3; Train.logging_each_epoch := false;
              Train.task_ratio := 1 |}
           (λ _ _ _, 1%R) [(0%Z, 10); (1%Z, 20); (0%Z, 11)] 0).
  - simpl. lia.
  - simpl. lia.
  - simpl. lia.
Defined.

(** X17: with a positive limit the loop stops at the [break] after
    [L + 1] updates, where [L] is the smallest positive one of
    [max_steps] and [break_steps]: only once [global_step] is above the
    limit, one update after the [max_steps] that the scheduler was set up
    for.  It has then taken exactly
    [(L + 1) * gradient_accumulation_steps] batches from the generator,
    and the batches after them play no part. *)
Theorem loop_stops_past_limit {A : Type}
    (args : Train.Args) (loss : nat → Z → A → R) (L : Z)
    (batches : list (Z * A)) (t_total : R) :
  (0 < Main.gradient_accumulation_steps (Train.main_args args))%Z →
  ¬ Train.past_limit args L → Train.past_limit args (L + 1) →
  ((L + 1) * Main.gradient_accumulation_steps (Train.main_args args)
   ≤ Z.of_nat (length batches))%Z →
  ∃ st,
    Train.loop args loss 0 batches (Train.init t_total) = Ok (st, true)
    ∧ Train.loop args loss 0
        (take (Z.to_nat
                 ((L + 1)
                  * Main.gradient_accumulation_steps (Train.main_args args)))
           batches)
        (Train.init t_total)
      = Ok (st, true)
    ∧ Train.step st
      = ((L + 1) * Main.gradient_accumulation_steps (Train.main_args args))%Z
    ∧ Train.global_step st = (L + 1)%Z
    ∧ Train.updates (Train.events st) = Z.to_nat (L + 1).
Proof.
  intros Hg HL HL1 Hlen.
  assert (0 ≤ L)%Z as HL0.
  { destruct (decide (0 ≤ L)%Z); [done|]. exfalso.
    revert HL1. unfold Train.past_limit. lia. }
  set (k := Z.to_nat
              ((L + 1)
               * Main.gradient_accumulation_steps (Train.main_args args))).
  destruct (loop_limit args loss L 0 (take k batches) (Train.init t_total) Hg)
    as (st & Hloop & Hstep & Hglobal & _ & Hupd & _); [done..| |].
  { rewrite length_take. unfold k. lia. }
  exists st. split; [|by repeat split].
  rewrite <-(take_drop k batches). by apply loop_stopped.
Qed.

Lemma loop_stops_past_limit_witness :
  ∃ st,
    Train.loop
      {| Train.main_args := Main.defaults "out" "en" "xnli";
         Train.max_steps := 1; Train.break_steps := -1;
         Train.num_train_epochs := 3; Train.logging_each_epoch := false;
         Train.task_ratio := 1 |}
      (λ _ _ _, 1%R) 0 [(0%Z, 10); (1%Z, 20); (0%Z, 11)] (Train.init 1)
    = Ok (st, true)
    ∧ Train.loop
        {| Train.main_args := Main.defaults "out" "en" "xnli";
           Train.max_steps := 1; Train.break_steps := -1;
           Train.num_train_epochs := 3; Train.logging_each_epoch := false;
           Train.task_ratio := 1 |}
        (λ _ _ _, 1%R) 0
        (take (Z.to_nat ((1 + 1) * 1)) [(0%Z, 10); (1%Z, 20); (0%Z, 11)])
        (Train.init 1)
      = Ok (st, true)
    ∧ Train.step st = ((1 + 1) * 1)%Z
    ∧ Train.global_step st = (1 + 1)%Z
    ∧ Train.updates (Train.events st) = Z.to_nat (1 + 1).
Proof.
  apply (loop_stops_past_limit
           {| Train.main_args := Main.defaults "out" "en" "xnli";
              Train.max_steps := 1; Train.break_steps := -1;
              Train.num_train_epochs := 3; Train.logging_each_epoch := false;
              Train.task_ratio := 1 |}
           (λ _ _ _, 1%R) 1 [(0%Z, 10); (1%Z, 20); (0%Z, 11)] 1).
  - simpl. lia.
  - unfold Train.past_limit. simpl. lia.
  - unfold Train.past_limit. simpl. lia.
  - simpl. lia.
Defined.

(** X18: during the loop [logging()] is called at the global steps that
    are multiples of [logging_steps], once each and in order, when the
    process is the first one and [logging_steps] is positive, and never
    otherwise; there is one update for every
    [gradient_accumulation_steps] batches. *)
Theorem train_logging_steps {A : Type}
    (args : Train.Args) (loss : nat → Z → A → R)
    (batches : list (Z * A)) (t_total : R) :
  (0 < Main.gradient_accumulation_steps (Train.main_args args))%Z →
  ∃ st stop,
    Train.loop args loss 0 batches (Train.init t_total) = Ok (st, stop)
    ∧ Train.global_step st
      = (Train.step st
         / Main.gradient_accumulation_steps (Train.main_args args))%Z
    ∧ Train.updates (Train.events st) = Z.to_nat (Train.global_step st)
    ∧ Train.logged (Train.events st)
      = if Train.first_process args
           && bool_decide (0 < Main.logging_steps (Train.main_args args))%Z
        then filter
               (λ g, g mod Main.logging_steps (Train.main_args args) = 0)%Z
               (seqZ 1 (Train.global_step st))
        else [].
Proof.
  intros Hg.
  destruct (loop_spec args loss 0 batches (Train.init t_total) Hg)
    as (k & st & stop & Hloop & Hk & Hstep & Hgs & Hle & Hloss
        & Hupd & Hlog & Hstop).
  { simpl. by rewrite Z.div_0_l by lia. }
  { apply init_no_limit. }
  exists st, stop. split; [done|]. split; [done|].
  simpl in Hupd, Hlog. rewrite Z.sub_0_r in Hupd, Hlog. by split.
Qed.

Lemma train_logging_steps_witness :
  ∃ st stop,
    Train.loop
      {| Train.main_args := Main.defaults "out" "en" "xnli";
         Train.max_steps := 3; Train.break_steps := -1;
         Train.num_train_epochs := 3; Train.logging_each_epoch := false;
         Train.task_ratio := 1 |}
      (λ _ _ _, 1%R) 0 [(0%Z, 10); (1%Z, 20)] (Train.init 3)
    = Ok (st, stop)
    ∧ Train.global_step st = (Train.step st / 1)%Z
    ∧ Train.updates (Train.events st) = Z.to_nat (Train.global_step st)
    ∧ Train.logged (Train.events st)
      = if true && bool_decide (0 < 50)%Z
        then filter (λ g, g mod 50 = 0)%Z (seqZ 1 (Train.global_step st))
        else [].
Proof.
  apply (train_logging_steps
           {| Train.main_args := Main.defaults "out" "en" "xnli";
              Train.max_steps := 3; Train.break_steps := -1;
              Train.num_train_epochs := 3; Train.logging_each_epoch := false;
              Train.task_ratio := 1 |}
           (λ _ _ _, 1%R) [(0%Z, 10); (1%Z, 20)] 3).
  simpl. lia.
Defined.

(** X19: the schedule (the updates in total and the epochs) divides by
    the updates per epoch of one dataloader: it raises
    [ZeroDivisionError], and nothing else, exactly when
    [gradient_accumulation_steps] is 0, or [max_steps] is positive and
    the dataloader has so few batches that
    [len(train_dataloader) // gradient_accumulation_steps] is 0; with
    [max_steps] positive it sets [t_total = max_steps] otherwise. *)
Theorem schedule_zero_division (args : Train.Args) (len_train_dataloader : Z) :
  (Train.schedule args len_train_dataloader = Raise ZeroDivisionError
   ↔ Main.gradient_accumulation_steps (Train.main_args args) = 0%Z
     ∨ ((0 < Train.max_steps args)%Z
        ∧ (len_train_dataloader
           / Main.gradient_accumulation_steps (Train.main_args args) = 0)%Z))
  ∧ (∀ e, Train.schedule args len_train_dataloader = Raise e →
          e = ZeroDivisionError)
  ∧ (∀ t_total epochs,
       (0 < Train.max_steps args)%Z →
       Train.schedule args len_train_dataloader = Ok (t_total, epochs) →
       t_total = IZR (Train.max_steps args)
       ∧ epochs
         = IZR (Train.max_steps args
                / (len_train_dataloader
                   / Main.gradient_accumulation_steps (Train.main_args args))
                + 1)).
Proof.
  unfold Train.schedule, Main.floordiv.
  destruct (decide (Main.gradient_accumulation_steps (Train.main_args args)
                    = 0%Z)) as [Hg|Hg].
  { rewrite !(bool_decide_true _ Hg). split; [|split].
    - split; [by left|]. intros _. by case_bool_decide.
    - intros e. by case_bool_decide; intros [= <-].
    - intros t_total epochs Hmax. by rewrite bool_decide_true by done. }
  rewrite !(bool_decide_false _ Hg).
  destruct (decide (0 < Train.max_steps args)%Z) as [Hmax|Hmax].
  - rewrite !(bool_decide_true _ Hmax). cbn [mbind result_bind].
    destruct (decide (len_train_dataloader
                      / Main.gradient_accumulation_steps (Train.main_args args)
                      = 0)%Z) as [Hq|Hq].
    + rewrite !(bool_decide_true _ Hq). cbn [mbind result_bind].
      split; [|split].
      * split; [by right|done].
      * by intros e [= <-].
      * done.
    + rewrite !(bool_decide_false _ Hq). cbn [mbind result_bind].
      split; [|split].
      * split; [done|]. by intros [?|[_ ?]].
      * done.
      * by intros t_total epochs _ [= <- <-].
  - rewrite !(bool_decide_false _ Hmax). cbn [mbind result_bind].
    split; [|split].
    + split; [done|]. by intros [?|[? _]].
    + done.
    + done.
Qed.

(** X21: a logging period given in samples that is shorter than one total
    batch disables the logging of the loop: [main] turns it into
    [logging_steps = 0], and with that [train] never calls [logging()]
    between the updates. *)
Theorem samples_below_batch_disable_logging {A : Type}
    (env : Main.Env) (args args' : Main.Args) (train_args : Train.Args)
    (loss : nat → Z → A → R) (batches : list (Z * A)) (t_total : R) :
  (Main.main env args).2 = Ok args' →
  Main.logging_steps args = (-1)%Z →
  (0 ≤ Main.logging_steps_in_sample args
   < (if bool_decide (Main.local_rank args = (-1)%Z) || Main.no_cuda args
      then Main.device_count env else 1)
     * Main.per_gpu_train_batch_size args
     * Main.gradient_accumulation_steps args)%Z →
  (0 < Main.gradient_accumulation_steps args)%Z →
  Train.main_args train_args = args' →
  Main.logging_steps args' = 0%Z
  ∧ ∃ st stop,
      Train.loop train_args loss 0 batches (Train.init t_total) = Ok (st, stop)
      ∧ Train.logged (Train.events st) = [].
Proof.
  intros Hmain Hls Hsample Hg Hargs.
  destruct (output_dir_guard_cases env args) as [Hguard|[Hguard|Hguard]].
  2,3: by rewrite (main_guard_raise _ _ _ Hguard) in Hmain.
  destruct (main_outcome env args Hguard) as (evs & _ & Hrun).
  destruct (preprocess_language_fields args) as (_ & _ & _ & Hgas & _ & _).
  rewrite Hrun in Hmain. clear Hrun.
  assert (Main.logging_steps args' = 0%Z
          ∧ Main.gradient_accumulation_steps args'
            = Main.gradient_accumulation_steps args) as [Hzero Hgas'].
  { revert Hmain. unfold Main.both_logging_flags_set.
    repeat destruct (decide _); simpl; try done; try lia;
      intros [= <-]; simpl; (split; [|done]).
    by apply Z.div_small. }
  split; [done|].
  destruct (loop_spec train_args loss 0 batches (Train.init t_total))
    as (k & st & stop & Hloop & _ & _ & _ & _ & _ & _ & Hlog & _).
  { by rewrite Hargs, Hgas'. }
  { simpl. by rewrite Z.div_0_l by (rewrite Hargs, Hgas'; lia). }
  { apply init_no_limit. }
  exists st, stop. split; [done|]. rewrite Hlog, Hargs, Hzero. simpl.
  by rewrite andb_false_r.
Qed.

Lemma samples_below_batch_disable_logging_witness :
  let env := {| Main.path := λ _, Main.Absent; Main.device_count := 2;
                Main.processors := ["xnli"%string] |} in
  let args := {| Main.output_dir := "out"; Main.do_train := true;
                 Main.overwrite_output_dir := false;
                 Main.server_ip := EmptyString;
                 Main.server_port := EmptyString;
                 Main.gpu_id := EmptyString; Main.local_rank := -1;
                 Main.no_cuda := false;
                 Main.per_gpu_train_batch_size := 8;
                 Main.gradient_accumulation_steps := 1;
                 Main.logging_steps := -1;
                 Main.logging_steps_in_sample := 10;
                 Main.language := "en"; Main.train_language := None;
                 Main.task_name := "xnli"; Main.seed := 42 |} in
  let args' := Main.set_logging_steps 0 (Main.set_train_language "en" args) in
  Main.logging_steps args' = 0%Z
  ∧ ∃ st stop,
      Train.loop
        {| Train.main_args := args'; Train.max_steps := -1;
           Train.break_steps := -1; Train.num_train_epochs := 3;
           Train.logging_each_epoch := false; Train.task_ratio := 1 |}
        (λ _ _ _, 1%R) 0 [(0%Z, 10); (1%Z, 20)] (Train.init 0)
      = Ok (st, stop)
      ∧ Train.logged (Train.events st) = [].
Proof.
  intros env args args'.
  apply (samples_below_batch_disable_logging env args args'
           {| Train.main_args := args'; Train.max_steps := -1;
              Train.break_steps := -1; Train.num_train_epochs := 3;
              Train.logging_each_epoch := false; Train.task_ratio := 1 |}
           (λ _ _ _, 1%R) [(0%Z, 10); (1%Z, 20)] 0).
  - reflexivity.
  - reflexivity.
  - simpl. lia.
  - simpl. lia.
  - reflexivity.
Defined.

(** ** load_and_cache_examples *)

Section cache_names.
Import Cache.

Lemma py_split_nonempty sep s : py_split sep s ≠ [].
Proof.
  destruct s as [|c s]; [done|]. simpl. case_bool_decide; [done|].
  by destruct (py_split sep s).
Qed.

Lemma py_split_app sep a b :
  py_split sep (a +:+ String sep b) = py_split sep a ++ py_split sep b.
Proof.
  induction a as [|c a IH]; simpl.
  - by rewrite bool_decide_true.
  - case_bool_decide; [by rewrite IH|]. rewrite IH.
    pose proof (py_split_nonempty sep a).
    by destruct (py_split sep a).
Qed.

Lemma py_split_single sep s :
  sep ∉ String.list_ascii_of_string s → py_split sep s = [s].
Proof.
  induction s as [|c s IH]; [done|]. simpl. intros Hnot.
  rewrite bool_decide_false by (intros ->; apply Hnot; left).
  rewrite IH; [done|]. intros Hin. apply Hnot. by right.
Qed.

(** The name is missing exactly for a path of slashes. *)
Lemma model_cache_name_raise s e :
  model_cache_name s = Raise e
  ↔ e = IndexError ∧ Forall (λ c, c = "/"%char) (String.list_ascii_of_string s).
Proof.
  unfold model_cache_name, pop.
  assert (filter (λ w, w ≠ EmptyString) (py_split "/" s) = []
          ↔ Forall (λ c, c = "/"%char) (String.list_ascii_of_string s)) as Hiff.
  { induction s as [|c s IH]; simpl.
    - rewrite filter_cons_False, filter_nil by (by intros ?). done.
    - rewrite Forall_cons. case_bool_decide as Hc.
      + rewrite filter_cons_False by (by intros ?). rewrite IH. tauto.
      + pose proof (py_split_nonempty "/" s).
        destruct (py_split "/" s) as [|w ws]; [done|].
        rewrite filter_cons_True by done. split; [done|]. by intros [? _]. }
  destruct (last _) as [x|] eqn:Hlast.
  - split; [done|]. intros [_ Hall%Hiff]. by rewrite Hall in Hlast.
  - apply last_None in Hlast. split.
    + intros [= <-]. split; [done|]. by apply Hiff.
    + by intros [-> _].
Qed.

(** The name is the last component of the path. *)
Lemma model_cache_name_last p m :
  m ≠ EmptyString → "/"%char ∉ String.list_ascii_of_string m →
  model_cache_name (p +:+ String "/" m) = Ok m.
Proof.
  intros Hm Hslash. unfold model_cache_name, pop.
  rewrite py_split_app, (py_split_single _ m) by done.
  rewrite filter_app, filter_cons_True, filter_nil by done.
  by rewrite last_snoc.
Qed.

Lemma append_cons (c : Ascii.ascii) (a s : string) :
  String c a +:+ s = String c (a +:+ s).
Proof. reflexivity. Qed.

Lemma append_assoc (a b c : string) : (a +:+ b) +:+ c = a +:+ (b +:+ c).
Proof.
  induction a as [|x a IH]; [done|]. by rewrite !append_cons, IH.
Qed.

Lemma path_join_relative (a : string) (c : Ascii.ascii) :
  c ≠ "/"%char →
  ∃ a', ∀ b', path_join a (String c b') = a' +:+ String c b'.
Proof.
  intros Hc. unfold path_join.
  assert (∀ b', String.prefix "/" (String c b') = false) as Hrel.
  { intros b'. cbn [String.prefix].
    destruct (ascii_dec "/" c) as [Heq|]; [|done]. by destruct Hc. }
  destruct (bool_decide (a = EmptyString) || endswith "/" a).
  - exists a. intros b'. by rewrite Hrel.
  - exists (a +:+ "/"). intros b'. by rewrite Hrel, append_assoc.
Qed.
End cache_names.

Section cache_load.
Import Cache.
Context {F : Type}.
Variable processors : list string.
Variable output_modes : gmap string string.
Implicit Types (create : string → string → string → string → Z → string
                         → result F).
Implicit Types (args : Args) (task language split file : string).
Implicit Types (fs : gmap string F) (features : F).

(** The branch that creates the features. *)
Lemma create_branch_ok create args task language split fs file mode' fs'
    features mode :
  (folder ← getitem task2folder task;
   features0 ← create task language split
                 (data_dir args +:+ "/" +:+ folder)
                 (max_seq_length args) mode';
   Ok (if first_process args then <[file := features0]> fs else fs,
       features0, mode'))
  = Ok (fs', features, mode) →
  mode' = mode
  ∧ (∃ folder,
       task2folder !! task = Some folder
       ∧ create task language split (data_dir args +:+ "/" +:+ folder)
           (max_seq_length args) mode = Ok features)
  ∧ fs' = if first_process args then <[file := features]> fs else fs.
Proof.
  unfold getitem.
  destruct (task2folder !! task) as [folder|]; cbn [mbind result_bind];
    [|done].
  destruct (create _ _ _ _ _ _) as [features0|e] eqn:Hcreate;
    cbn [mbind result_bind]; [|done].
  intros [= <- <- <-]. split; [done|]. split; [by exists folder|done].
Qed.

(** What a run of [load_features] that raises nothing has done. *)
Lemma load_features_ok create args task language split fs fs' features mode :
  load_features processors output_modes create args task language split fs
  = Ok (fs', features, mode) →
  split ∈ ["train"; "valid"; "test"]%string
  ∧ task ∈ processors
  ∧ output_modes !! task = Some mode
  ∧ ∃ file,
      cached_features_file args task language split = Ok file
      ∧ ((fs !! file = Some features ∧ overwrite_cache args = false
          ∧ fs' = fs)
         ∨ ((fs !! file = None ∨ overwrite_cache args = true)
            ∧ (∃ folder,
                 task2folder !! task = Some folder
                 ∧ create task language split
                     (data_dir args +:+ "/" +:+ folder)
                     (max_seq_length args) mode = Ok features)
            ∧ fs' = if first_process args then <[file := features]> fs
                    else fs)).
Proof.
  unfold load_features, py_assert.
  destruct (decide (split ∈ ["train"; "valid"; "test"]%string))
    as [Hsplit|Hsplit];
    [rewrite (bool_decide_true _ Hsplit)|rewrite (bool_decide_false _ Hsplit)];
    cbn [mbind result_bind]; [|done].
  destruct (decide (task ∈ processors)) as [Htask|Htask];
    [rewrite (bool_decide_true _ Htask)|rewrite (bool_decide_false _ Htask)];
    cbn [mbind result_bind]; [|done].
  destruct (getitem output_modes task) as [mode'|e] eqn:Hmode;
    cbn [mbind result_bind]; [|done].
  assert (output_modes !! task = Some mode') as Hmode'.
  { revert Hmode. unfold getitem. destruct (output_modes !! task); [|done].
    by intros [= ->]. }
  destruct (cached_features_file args task language split) as [file|e];
    cbn [mbind result_bind]; [|done].
  destruct (fs !! file) as [cached|] eqn:Hfile.
  - destruct (overwrite_cache args) eqn:Hover.
    + intros (-> & Hcreate & ->)%create_branch_ok.
      do 3 (split; [done|]). exists file. split; [done|]. right.
      split; [by right|done].
    + intros [= <- <- <-]. do 3 (split; [done|]). exists file.
      split; [done|]. by left.
  - intros (-> & Hcreate & ->)%create_branch_ok.
    do 3 (split; [done|]). exists file. split; [done|]. right.
    split; [by left|done].
Qed.

(** A cached file is read when [overwrite_cache] is not set. *)
Lemma load_features_hit create args task language split fs file features mode :
  split ∈ ["train"; "valid"; "test"]%string →
  task ∈ processors →
  output_modes !! task = Some mode →
  cached_features_file args task language split = Ok file →
  fs !! file = Some features →
  overwrite_cache args = false →
  load_features processors output_modes create args task language split fs
  = Ok (fs, features, mode).
Proof.
  intros Hsplit Htask Hmode Hfile Hcached Hover.
  unfold load_features, py_assert.
  rewrite !bool_decide_true by done. cbn [mbind result_bind].
  assert (getitem output_modes task = Ok mode) as ->.
  { unfold getitem. by rewrite Hmode. }
  cbn [mbind result_bind]. rewrite Hfile.
  cbn [mbind result_bind]. by rewrite Hcached, Hover.
Qed.

Lemma load_and_cache_examples_ok create args task language split fs fs'
    features :
  load_and_cache_examples processors output_modes create args task language
    split fs = (fs', inr features) →
  load_features processors output_modes create args task language split fs
  = Ok (fs', features, "classification"%string).
Proof.
  unfold load_and_cache_examples.
  destruct (load_features _ _ _ _ _ _ _ _) as [[[fs1 f1] mode]|e]; [|done].
  case_bool_decide as Hmode; [|done]. by intros [= <- <-]; subst.
Qed.
End cache_load.

(** X22: the cache round trip.  After a call of the first process that
    returns features, a second call with the same arguments and without
    [overwrite_cache] returns the same features and leaves the files as
    they are, whatever the data files hold by then: it reads the cache
    and never the data. *)
Theorem cache_round_trip {F : Type}
    (processors : list string) (output_modes : gmap string string)
    (create create' : string → string → string → string → Z → string
                      → result F)
    (args : Cache.Args) (task language split : string)
    (fs fs' : gmap string F) (features : F) :
  Cache.first_process args = true →
  Cache.overwrite_cache args = false →
  Cache.load_and_cache_examples processors output_modes create args task
    language split fs = (fs', inr features) →
  Cache.load_and_cache_examples processors output_modes create' args task
    language split fs' = (fs', inr features).
Proof.
  intros Hfirst Hover Hrun%load_and_cache_examples_ok.
  apply load_features_ok in Hrun
    as (Hsplit & Htask & Hmode & file & Hfile & Hcases).
  assert (fs' !! file = Some features) as Hcached.
  { destruct Hcases as [(Hhit & _ & ->)|(_ & _ & ->)]; [done|].
    rewrite Hfirst. apply lookup_insert_eq. }
  unfold Cache.load_and_cache_examples.
  rewrite (load_features_hit _ _ create' _ _ _ _ _ _ _ _
             Hsplit Htask Hmode Hfile Hcached Hover).
  by rewrite bool_decide_true.
Qed.

Lemma cache_round_trip_witness :
  Cache.load_and_cache_examples ["xnli"%string]
    {["xnli"%string := "classification"%string]}
    (λ _ _ _ _ _ _, Ok 2)
    {| Cache.main_args := Main.defaults "out" "en" "xnli";
       Cache.model_name_or_path := "models/xlmr-base";
       Cache.data_cache_name := None; Cache.data_dir := "data";
       Cache.max_seq_length := 128; Cache.overwrite_cache := false |}
    "xnli" "en" "train"
    {["data/cached_train_xlmr-base_128_xnli_en"%string := 1]}
  = ({["data/cached_train_xlmr-base_128_xnli_en"%string := 1]}, inr 1).
Proof.
  apply (cache_round_trip ["xnli"%string]
           {["xnli"%string := "classification"%string]}
           (λ _ _ _ _ _ _, Ok 1) (λ _ _ _ _ _ _, Ok 2)
           {| Cache.main_args := Main.defaults "out" "en" "xnli";
              Cache.model_name_or_path := "models/xlmr-base";
              Cache.data_cache_name := None; Cache.data_dir := "data";
              Cache.max_seq_length := 128; Cache.overwrite_cache := false |}
           "xnli" "en" "train" ∅).
  - reflexivity.
  - reflexivity.
  - vm_compute. reflexivity.
Defined.

(** X23: what [load_and_cache_examples] does to the cached files: nothing,
    or, in the first process only, it writes the one file of its
    arguments, and this only if the file was missing or [overwrite_cache]
    is set; a file that is there is never replaced without
    [overwrite_cache]. *)
Theorem cached_files_effect {F : Type}
    (processors : list string) (output_modes : gmap string string)
    (create : string → string → string → string → Z → string → result F)
    (args : Cache.Args) (task language split : string) (fs : gmap string F) :
  (Cache.load_and_cache_examples processors output_modes create args task
     language split fs).1 = fs
  ∨ (Cache.first_process args = true
     ∧ ∃ file features,
         Cache.cached_features_file args task language split = Ok file
         ∧ (fs !! file = None ∨ Cache.overwrite_cache args = true)
         ∧ (Cache.load_and_cache_examples processors output_modes create
              args task language split fs).1 = <[file := features]> fs).
Proof.
  unfold Cache.load_and_cache_examples.
  destruct (Cache.load_features _ _ _ _ _ _ _ _)
    as [[[fs' features] mode]|e] eqn:Hrun; [|by left].
  apply load_features_ok in Hrun
    as (_ & _ & _ & file & Hfile & [(_ & _ & ->)|(Hmiss & _ & ->)]).
  { left. by case_bool_decide. }
  destruct (Cache.first_process args); [|left; by case_bool_decide].
  right. split; [done|]. exists file, features. by case_bool_decide.
Qed.

(** X24: the check of the output mode comes last.  For a task whose
    mode is not [classification], a call of the first process that finds
    no cached file creates the features, writes them to the cache, and
    only then raises the [ValueError]. *)
Theorem output_mode_error_after_caching {F : Type}
    (processors : list string) (output_modes : gmap string string)
    (create : string → string → string → string → Z → string → result F)
    (args : Cache.Args) (task language split file folder mode : string)
    (fs : gmap string F) (features : F) :
  split ∈ ["train"; "valid"; "test"]%string →
  task ∈ processors →
  output_modes !! task = Some mode →
  mode ≠ "classification"%string →
  Cache.cached_features_file args task language split = Ok file →
  fs !! file = None →
  Cache.task2folder !! task = Some folder →
  create task language split (Cache.data_dir args +:+ "/" +:+ folder)
    (Cache.max_seq_length args) mode = Ok features →
  Cache.first_process args = true →
  Cache.load_and_cache_examples processors output_modes create args task
    language split fs
  = (<[file := features]> fs, inl Cache.NoOtherOutputMode).
Proof.
  intros Hsplit Htask Hmode Hother Hfile Hmiss Hfolder Hcreate Hfirst.
  unfold Cache.load_and_cache_examples, Cache.load_features, py_assert.
  rewrite !bool_decide_true by done. cbn [mbind result_bind].
  assert (Cache.getitem output_modes task = Ok mode) as ->.
  { unfold Cache.getitem. by rewrite Hmode. }
  cbn [mbind result_bind]. rewrite Hfile. cbn [mbind result_bind].
  rewrite Hmiss.
  assert (Cache.getitem Cache.task2folder task = Ok folder) as ->.
  { unfold Cache.getitem. by rewrite Hfolder. }
  cbn [mbind result_bind]. rewrite Hcreate. cbn [mbind result_bind].
  by rewrite Hfirst, bool_decide_false.
Qed.

Lemma output_mode_error_after_caching_witness :
  Cache.load_and_cache_examples ["xnli"%string]
    {["xnli"%string := "regression"%string]}
    (λ _ _ _ _ _ _, Ok 1)
    {| Cache.main_args := Main.defaults "out" "en" "xnli";
       Cache.model_name_or_path := "models/xlmr-base";
       Cache.data_cache_name := None; Cache.data_dir := "data";
       Cache.max_seq_length := 128; Cache.overwrite_cache := false |}
    "xnli" "en" "train" ∅
  = (<["data/cached_train_xlmr-base_128_xnli_en"%string := 1]> ∅,
     inl Cache.NoOtherOutputMode).
Proof.
  apply (output_mode_error_after_caching ["xnli"%string]
           {["xnli"%string := "regression"%string]}
           (λ _ _ _ _ _ _, Ok 1)
           {| Cache.main_args := Main.defaults "out" "en" "xnli";
              Cache.model_name_or_path := "models/xlmr-base";
              Cache.data_cache_name := None; Cache.data_dir := "data";
              Cache.max_seq_length := 128; Cache.overwrite_cache := false |}
           "xnli" "en" "train" "data/cached_train_xlmr-base_128_xnli_en"
           "XNLI" "regression" ∅ 1).
  - set_solver.
  - set_solver.
  - reflexivity.
  - done.
  - vm_compute. reflexivity.
  - reflexivity.
  - vm_compute. reflexivity.
  - reflexivity.
  - reflexivity.
Defined.

(** X25: the name of the cache is taken from [model_name_or_path] before
    [data_cache_name] is looked at: the path of the cached file cannot be
    computed, with [IndexError], exactly when [model_name_or_path] is
    empty or all slashes, also when [data_cache_name] is given. *)
Theorem cached_features_file_raise
    (args : Cache.Args) (task language split : string) (e : exn) :
  Cache.cached_features_file args task language split = Raise e
  ↔ e = IndexError
    ∧ Forall (λ c, c = "/"%char)
        (String.list_ascii_of_string (Cache.model_name_or_path args)).
Proof.
  rewrite <-model_cache_name_raise. unfold Cache.cached_features_file.
  by destruct (Cache.model_cache_name _).
Qed.

(** X26: the cached file is named after the last component of
    [model_name_or_path] only: models in different directories whose
    paths end in the same name share their cached features. *)
Theorem cached_features_file_last_component
    (args : Cache.Args) (task language split p m : string) :
  m ≠ EmptyString →
  "/"%char ∉ String.list_ascii_of_string m →
  Cache.model_name_or_path args = p +:+ "/" +:+ m →
  Cache.cached_features_file args task language split
  = Ok (Cache.path_join (Cache.data_dir args)
          ("cached_" +:+ split +:+ "_"
           +:+ default m (Cache.data_cache_name args) +:+ "_"
           +:+ pretty (Cache.max_seq_length args) +:+ "_" +:+ task +:+ "_"
           +:+ language)).
Proof.
  intros Hm Hslash Hpath. unfold Cache.cached_features_file.
  rewrite Hpath.
  change (p +:+ "/" +:+ m) with (p +:+ String "/" m).
  by rewrite model_cache_name_last.
Qed.

Lemma cached_features_file_last_component_witness :
  Cache.cached_features_file
    {| Cache.main_args := Main.defaults "out" "en" "xnli";
       Cache.model_name_or_path := "runs/a/checkpoint-50";
       Cache.data_cache_name := None; Cache.data_dir := "data";
       Cache.max_seq_length := 128; Cache.overwrite_cache := false |}
    "xnli" "en" "train"
  = Ok (Cache.path_join "data"
          ("cached_" +:+ "train" +:+ "_"
           +:+ default "checkpoint-50" None +:+ "_"
           +:+ pretty 128%Z +:+ "_" +:+ "xnli" +:+ "_" +:+ "en")).
Proof.
  apply (cached_features_file_last_component
           {| Cache.main_args := Main.defaults "out" "en" "xnli";
              Cache.model_name_or_path := "runs/a/checkpoint-50";
              Cache.data_cache_name := None; Cache.data_dir := "data";
              Cache.max_seq_length := 128; Cache.overwrite_cache := false |}
           "xnli" "en" "train" "runs/a" "checkpoint-50").
  - done.
  - vm_compute. intros Hin.
    repeat (apply elem_of_cons in Hin as [Hin|Hin]; [done|]).
    by apply elem_of_nil in Hin.
  - reflexivity.
Defined.

(** X27: splits and languages never share a cached file: for the same
    other arguments, two calls that differ in the split or in the
    language use different files. *)
Theorem cached_files_distinct
    (args : Cache.Args) (task language1 language2 split1 split2 : string)
    (file1 file2 : string) :
  split1 ∈ ["train"; "valid"; "test"]%string →
  split2 ∈ ["train"; "valid"; "test"]%string →
  (split1, language1) ≠ (split2, language2) →
  Cache.cached_features_file args task language1 split1 = Ok file1 →
  Cache.cached_features_file args task language2 split2 = Ok file2 →
  file1 ≠ file2.
Proof.
  intros Hsplit1 Hsplit2 Hne. unfold Cache.cached_features_file.
  destruct (Cache.model_cache_name _) as [name|e]; [|done].
  cbn [mbind result_bind].
  set (n := default name (Cache.data_cache_name args)).
  destruct (path_join_relative (Cache.data_dir args) "c") as [a Hjoin];
    [done|].
  assert (∀ s, "cached_" +:+ s = String "c" ("ached_" +:+ s)) as Hc by done.
  rewrite !Hc, !Hjoin. intros [= <-] [= <-] Heq.
  apply (inj (String.append a)) in Heq. injection Heq as Heq.
  apply (inj (String.append "")) in Heq.
  assert (∀ s, s = split1 → s = split2 → language1 = language2) as Hsame.
  { intros s <- <-. apply (inj (String.append s)) in Heq.
    apply (inj (String.append "_")) in Heq.
    apply (inj (String.append n)) in Heq.
    apply (inj (String.append "_")) in Heq.
    apply (inj (String.append (pretty (Cache.max_seq_length args)))) in Heq.
    apply (inj (String.append "_")) in Heq.
    apply (inj (String.append task)) in Heq.
    by apply (inj (String.append "_")) in Heq. }
  repeat (apply elem_of_cons in Hsplit1 as [->|Hsplit1]);
    [..|by apply elem_of_nil in Hsplit1];
    (repeat (apply elem_of_cons in Hsplit2 as [->|Hsplit2]);
       [..|by apply elem_of_nil in Hsplit2]);
    try (apply Hne; f_equal; by eapply Hsame);
    rewrite !append_cons in Heq; congruence.
Qed.

Lemma cached_files_distinct_witness :
  ("data/cached_valid_xlmr-base_128_xnli_en"
   ≠ "data/cached_test_xlmr-base_128_xnli_en")%string.
Proof.
  apply (cached_files_distinct
           {| Cache.main_args := Main.defaults "out" "en" "xnli";
              Cache.model_name_or_path := "models/xlmr-base";
              Cache.data_cache_name := None; Cache.data_dir := "data";
              Cache.max_seq_length := 128; Cache.overwrite_cache := false |}
           "xnli" "en" "en" "valid" "test").
  - set_solver.
  - set_solver.
  - done.
  - vm_compute. reflexivity.
  - vm_compute. reflexivity.
Defined.

(** ** evaluate *)

Section evaluate_results.
Import Averaging Evaluate.
Variable metrics : string → string → result (gmap string R).
Implicit Types (results : list (string * nat)) (h : heap) (ds : list dict).
Implicit Types (ls names : list string) (addrs : list nat).








End evaluate_results.

Section evaluate_names.
Import Averaging Evaluate.



End evaluate_names.


